(** * The Task-to-Pod compiler of pkg/reconciler/taskrun/resources/pod.go

    A shallow embedding of [MakePod], [AddReadyAnnotation], [makeLabels],
    [findMaxResourceRequest], [zeroNonMaxResourceRequests] and the
    name-trimming helpers, with the properties the specification states
    about them.

    Go maps are [gmap]s, a nil map is [None], slices are lists, [int] is
    [Z] where the code uses the -1 sentinel and [nat] for range indices.
    The collaborators that live outside the file (credentials-init,
    working-dir-init, the name generator, the volume validator, the
    step-template merge, the random reader, [filepath.Clean]) are the
    fields of the class [Collaborators]. *)

From Stdlib Require Import ZArith Lia Ascii String List.
From stdpp Require Import base option list gmap strings fin_maps pretty.

Local Open Scope string_scope.
Local Open Scope Z_scope.

(** ** Kubernetes data, as far as pod.go reads and writes it *)

Definition error := string.
Abbreviation ResourceName := string.

(** [resource.Quantity]: the value of the quantity in the finest unit the
    type represents (nano); [Cmp] compares values. *)
Definition Quantity := Z.
Definition Cmp (a b : Quantity) : comparison := Z.compare a b.
Definition zeroQty : Quantity := 0.

Abbreviation ResourceList := (gmap string Z).
Abbreviation StringMap := (gmap string string).

Definition ResourceCPU : ResourceName := "cpu".
Definition ResourceMemory : ResourceName := "memory".
Definition ResourceEphemeralStorage : ResourceName := "ephemeral-storage".

Record EnvVar := { ev_Name : string; ev_Value : string }.
Record VolumeMount := { vm_Name : string; vm_MountPath : string }.

Inductive VolumeSource :=
| EmptyDir
| SecretSource (secretName : string)
| OtherSource (descr : string).

Record Volume := { vol_Name : string; vol_Source : VolumeSource }.

Record Container := {
  c_Name : string;
  c_Image : string;
  c_Command : list string;
  c_Args : list string;
  c_WorkingDir : string;
  c_Env : list EnvVar;
  c_VolumeMounts : list VolumeMount;
  c_Requests : option ResourceList;   (* Resources.Requests, nil = None *)
  c_Limits : option ResourceList;
  c_TTY : bool
}.

(** v1alpha1.Step embeds a Container and adds the inline script. *)
Record Step := { s_Container : Container; s_Script : string }.

Record PodTemplate := {
  pt_Volumes : list Volume;
  pt_NodeSelector : StringMap;
  pt_Tolerations : list string;
  pt_Affinity : option string;
  pt_SecurityContext : option string;
  pt_RuntimeClassName : option string
}.

Record TaskRun := {
  tr_Name : string;
  tr_Namespace : string;
  tr_UID : string;
  tr_Labels : StringMap;        (* ranging over a nil map is ranging over ∅ *)
  tr_Annotations : StringMap;
  tr_ServiceAccount : string;
  tr_PodTemplate : PodTemplate
}.

Record TaskSpec := {
  ts_Steps : list Step;
  ts_Sidecars : list Container;
  ts_StepTemplate : option Container;
  ts_Volumes : list Volume
}.

Record Images := { CredsImage : string; ShellImage : string }.

Record OwnerReference := {
  or_APIVersion : string;
  or_Kind : string;
  or_Name : string;
  or_UID : string;
  or_Controller : bool;
  or_BlockOwnerDeletion : bool
}.

Inductive RestartPolicy := RestartPolicyAlways | RestartPolicyOnFailure | RestartPolicyNever.

Record Pod := {
  p_Namespace : string;
  p_Name : string;
  p_OwnerReferences : list OwnerReference;
  p_Annotations : option StringMap;
  p_Labels : option StringMap;
  p_RestartPolicy : RestartPolicy;
  p_InitContainers : list Container;
  p_Containers : list Container;
  p_ServiceAccountName : string;
  p_Volumes : list Volume;
  p_NodeSelector : StringMap;
  p_Tolerations : list string;
  p_Affinity : option string;
  p_SecurityContext : option string;
  p_RuntimeClassName : option string
}.

(** Field updates of a container ([s.Args = ...] and the like). *)
Definition with_Name (n : string) (c : Container) : Container :=
  {| c_Name := n; c_Image := c_Image c; c_Command := c_Command c; c_Args := c_Args c;
     c_WorkingDir := c_WorkingDir c; c_Env := c_Env c; c_VolumeMounts := c_VolumeMounts c;
     c_Requests := c_Requests c; c_Limits := c_Limits c; c_TTY := c_TTY c |}.
Definition with_Args (a : list string) (c : Container) : Container :=
  {| c_Name := c_Name c; c_Image := c_Image c; c_Command := c_Command c; c_Args := a;
     c_WorkingDir := c_WorkingDir c; c_Env := c_Env c; c_VolumeMounts := c_VolumeMounts c;
     c_Requests := c_Requests c; c_Limits := c_Limits c; c_TTY := c_TTY c |}.
Definition with_WorkingDir (w : string) (c : Container) : Container :=
  {| c_Name := c_Name c; c_Image := c_Image c; c_Command := c_Command c; c_Args := c_Args c;
     c_WorkingDir := w; c_Env := c_Env c; c_VolumeMounts := c_VolumeMounts c;
     c_Requests := c_Requests c; c_Limits := c_Limits c; c_TTY := c_TTY c |}.
Definition with_Env (e : list EnvVar) (c : Container) : Container :=
  {| c_Name := c_Name c; c_Image := c_Image c; c_Command := c_Command c; c_Args := c_Args c;
     c_WorkingDir := c_WorkingDir c; c_Env := e; c_VolumeMounts := c_VolumeMounts c;
     c_Requests := c_Requests c; c_Limits := c_Limits c; c_TTY := c_TTY c |}.
Definition with_VolumeMounts (m : list VolumeMount) (c : Container) : Container :=
  {| c_Name := c_Name c; c_Image := c_Image c; c_Command := c_Command c; c_Args := c_Args c;
     c_WorkingDir := c_WorkingDir c; c_Env := c_Env c; c_VolumeMounts := m;
     c_Requests := c_Requests c; c_Limits := c_Limits c; c_TTY := c_TTY c |}.
Definition with_Requests (r : option ResourceList) (c : Container) : Container :=
  {| c_Name := c_Name c; c_Image := c_Image c; c_Command := c_Command c; c_Args := c_Args c;
     c_WorkingDir := c_WorkingDir c; c_Env := c_Env c; c_VolumeMounts := c_VolumeMounts c;
     c_Requests := r; c_Limits := c_Limits c; c_TTY := c_TTY c |}.

Definition on_Container (f : Container → Container) (s : Step) : Step :=
  {| s_Container := f (s_Container s); s_Script := s_Script s |}.

(** ** Constants of pod.go *)

Definition workspaceDir := "/workspace".
Definition homeDir := "/builder/home".
Definition ManagedByLabelKey := "app.kubernetes.io/managed-by".
Definition ManagedByLabelValue := "tekton-pipelines".
Definition scriptsDir := "/builder/scripts".

Definition emptyVolumeSource : VolumeSource := EmptyDir.
Definition implicitEnvVars : list EnvVar := [ {| ev_Name := "HOME"; ev_Value := homeDir |} ].
Definition implicitVolumeMounts : list VolumeMount :=
  [ {| vm_Name := "workspace"; vm_MountPath := workspaceDir |};
    {| vm_Name := "home"; vm_MountPath := homeDir |} ].
Definition implicitVolumes : list Volume :=
  [ {| vol_Name := "workspace"; vol_Source := emptyVolumeSource |};
    {| vol_Name := "home"; vol_Source := emptyVolumeSource |} ].
Definition scriptsVolume : Volume :=
  {| vol_Name := "place-scripts"; vol_Source := emptyVolumeSource |}.
Definition scriptsVolumeMount : VolumeMount :=
  {| vm_Name := "place-scripts"; vm_MountPath := scriptsDir |}.

Definition containerPrefix := "step-".
Definition unnamedInitContainerPrefix := "step-unnamed-".
Definition ReadyAnnotation := "tekton.dev/ready".
Definition readyAnnotationValue := "READY".
Definition sidecarPrefix := "sidecar-".
Definition entrypointFlag := "-entrypoint".

(** ** Resource request consolidation *)

(** [s.Container.Resources.Requests[name]] with Go's comma-ok: reading a
    nil map finds nothing. *)
Definition requestOf (c : Container) (name : ResourceName) : option Quantity :=
  match c_Requests c with
  | Some m => m !! name
  | None => None
  end.

(** The two maps of findMaxResourceRequest. *)
Record maxState := { maxIdxs : gmap string Z; maxReqs : gmap string Z }.

(** Lines 373-374, for one resource name. *)
Definition initMax (st : maxState) (name : ResourceName) : maxState :=
  {| maxIdxs := <[name := -1]> (maxIdxs st); maxReqs := <[name := zeroQty]> (maxReqs st) |}.

(** Lines 378-383, for step [i] and one resource name. A missing key of
    [maxReqs] reads as the zero Quantity. *)
Definition bumpMax (i : nat) (s : Step) (st : maxState) (name : ResourceName) : maxState :=
  let maxReq := default zeroQty (maxReqs st !! name) in
  match requestOf (s_Container s) name with
  | Some req =>
      match Cmp req maxReq with
      | Gt => {| maxIdxs := <[name := Z.of_nat i]> (maxIdxs st);
                 maxReqs := <[name := req]> (maxReqs st) |}
      | _ => st
      end
  | None => st
  end.

(** The loop over the steps, [i] counting from the index of the first. *)
Fixpoint scanSteps (resourceNames : list ResourceName) (i : nat) (steps : list Step)
    (st : maxState) : maxState :=
  match steps with
  | [] => st
  | s :: rest => scanSteps resourceNames (S i) rest (foldl (bumpMax i s) st resourceNames)
  end.

Definition findMaxResourceRequest (steps : list Step) (resourceNames : list ResourceName)
    : gmap string Z :=
  let st0 := foldl initMax {| maxIdxs := ∅; maxReqs := ∅ |} resourceNames in
  maxIdxs (scanSteps resourceNames 0 steps st0).

(** zeroNonMaxResourceRequests: a nil request map is replaced by an empty
    one, then every resource whose maximum sits at another index is set
    to zero. The range over the map writes distinct keys. *)
Definition zeroNonMaxResourceRequests (step : Step) (stepIndex : nat)
    (maxIndicesByResource : gmap string Z) : Step :=
  let requests := default ∅ (c_Requests (s_Container step)) in
  let requests' :=
    map_fold (λ name maxIdx (acc : ResourceList),
                if decide (maxIdx ≠ Z.of_nat stepIndex) then <[name := zeroQty]> acc else acc)
             requests maxIndicesByResource in
  on_Container (with_Requests (Some requests')) step.

Definition trackedResources : list ResourceName :=
  [ResourceCPU; ResourceMemory; ResourceEphemeralStorage].

Local Open Scope list_scope.

(** ** Strings: strings.HasPrefix, strings.TrimPrefix, hex.EncodeToString *)

Definition HasPrefix (s prefix : string) : bool := String.prefix prefix s.

Fixpoint string_drop (n : nat) (s : string) : string :=
  match n, s with
  | O, _ => s
  | S n', String _ t => string_drop n' t
  | S _, EmptyString => EmptyString
  end.

Definition TrimPrefix (s prefix : string) : string :=
  if HasPrefix s prefix then string_drop (String.length prefix) s else s.

Definition hexDigit (n : N) : ascii :=
  match String.get (N.to_nat n) "0123456789abcdef" with
  | Some c => c
  | None => "0"%char
  end.

Fixpoint hex_EncodeToString (b : list Byte.byte) : string :=
  match b with
  | [] => EmptyString
  | x :: rest =>
      String (hexDigit (Byte.to_N x / 16)%N)
        (String (hexDigit (Byte.to_N x mod 16)%N) (hex_EncodeToString rest))
  end.

Definition newline : string := String (ascii_of_nat 10) EmptyString.
Definition dquote : string := String (ascii_of_nat 34) EmptyString.

(** filepath.Join of a rooted directory and a generated file name; the
    generated names are plain file names (letters, digits, dashes), on
    which Join is concatenation with one separator. *)
Definition filepath_Join (dir name : string) : string := dir +:+ "/" +:+ name.

(** ** Name trimming and classification (lines 312-318, 389-398) *)

Definition IsContainerStep (name : string) : bool := HasPrefix name containerPrefix.
Definition IsContainerSidecar (name : string) : bool := HasPrefix name sidecarPrefix.
Definition TrimContainerNamePrefix (containerName : string) : string :=
  TrimPrefix containerName containerPrefix.
Definition TrimSidecarNamePrefix (containerName : string) : string :=
  TrimPrefix containerName sidecarPrefix.

(** ** The script argument rewrite (lines 194-199)

    [entrypointLoop fuel i args tmpFile] runs the [for] loop from index
    [i]; [append(s.Args[:i+1], tmpFile)] cuts the list after position [i]
    and puts [tmpFile] there. [None] is a loop that has not ended when the
    fuel is spent. *)
Fixpoint entrypointLoop (fuel i : nat) (args : list string) (tmpFile : string)
    : option (list string) :=
  match fuel with
  | O => None
  | S fuel' =>
      match args !! i with
      | None => Some args
      | Some a =>
          if decide (a = entrypointFlag)
          then entrypointLoop fuel' (S i) (take (S i) args ++ [tmpFile]) tmpFile
          else entrypointLoop fuel' (S i) args tmpFile
      end
  end.

(** The loop leaves after at most [len(args) + 3] tests of its condition
    whenever it leaves at all. *)
Definition scriptArgs (args : list string) (tmpFile : string) : option (list string) :=
  entrypointLoop (List.length args + 3) 0 (args ++ [tmpFile]) tmpFile.

(** The shell fragment appended to the place-scripts container (lines 177-182). *)
Definition scriptFragment (tmpFile heredoc script : string) : string :=
  "tmpfile=" +:+ dquote +:+ tmpFile +:+ dquote +:+ newline +:+
  "touch ${tmpfile} && chmod +x ${tmpfile}" +:+ newline +:+
  "cat > ${tmpfile} << '" +:+ heredoc +:+ "'" +:+ newline +:+
  script +:+ newline +:+
  heredoc +:+ newline.

(** ** The collaborators *)

Class Collaborators := {
  (** the state of the random sources (name suffixes, randReader) *)
  World : Type;
  KubeClient : Type;
  (** pod.CredsInit(image, serviceAccount, namespace, client, mounts, env) *)
  CredsInit : string → string → string → KubeClient → list VolumeMount → list EnvVar →
              option Container * list Volume * option error;
  (** pod.WorkingDirInit(image, steps, mounts) *)
  WorkingDirInit : string → list Step → list VolumeMount → option Container;
  (** names.SimpleNameGenerator *)
  RestrictLengthWithRandomSuffix : string → World → string * World;
  RestrictLength : string → string;
  (** entrypoint.InitContainerName *)
  InitContainerName : string;
  ValidateVolumes : list Volume → option error;
  MergeStepsWithStepTemplate : option Container → list Step → list Step * option error;
  (** ioutil.ReadAll(io.LimitReader(randReader, n)) *)
  ReadAll_randReader : nat → World → list Byte.byte * option error * World;
  filepath_Clean : string → string;
  GetServiceAccountName : TaskRun → string;
  (** pipeline.GroupName, pipeline.TaskRunLabelKey, v1alpha1.SchemeGroupVersion *)
  GroupName : string;
  TaskRunLabelKey : string;
  SchemeGroupVersion : string
}.

Section Compiler.
Context {collab : Collaborators}.

Definition taskRunLabelKey : string := GroupName +:+ TaskRunLabelKey.

(** makeLabels (lines 321-336) *)
Definition makeLabels (s : TaskRun) : StringMap :=
  let labels : StringMap := <[ManagedByLabelKey := ManagedByLabelValue]> ∅ in
  let labels := map_fold (λ k v (acc : StringMap), <[k := v]> acc) labels (tr_Labels s) in
  <[taskRunLabelKey := tr_Name s]> labels.

(** makeAnnotations (lines 340-347) *)
Definition makeAnnotations (s : TaskRun) : StringMap :=
  let annotations := map_fold (λ k v (acc : StringMap), <[k := v]> acc) ∅ (tr_Annotations s) in
  <[ReadyAnnotation := EmptyString]> annotations.

(** Lines 147-155: the implicit mounts a step has not asked for itself. *)
Definition requestedVolumeMounts (mounts : list VolumeMount) : gmap string bool :=
  foldl (λ (acc : gmap string bool) vm, <[filepath_Clean (vm_MountPath vm) := true]> acc)
        ∅ mounts.

Definition addImplicitVolumeMounts (mounts : list VolumeMount) : list VolumeMount :=
  let requested := requestedVolumeMounts mounts in
  foldl (λ acc imp,
           if default false (requested !! filepath_Clean (vm_MountPath imp))
           then acc else acc ++ [imp])
        mounts implicitVolumeMounts.

(** Lines 206-210 and 258: the names of steps and sidecars. *)
Definition stepName (i : nat) (name : string) : string :=
  if decide (name = EmptyString)
  then unnamedInitContainerPrefix +:+ pretty i
  else RestrictLength (containerPrefix +:+ name).

Definition sidecarName (name : string) : string :=
  RestrictLength (sidecarPrefix +:+ name).

Definition entrypointInitName : string :=
  RestrictLength (containerPrefix +:+ InitContainerName).

(** The variables the loop over the steps writes. *)
Record loopState := {
  ls_initContainers : list Container;
  ls_podSteps : list Step;
  ls_placeScripts : bool;
  ls_scriptBody : string;        (* placeScriptsInitContainer.Args[1] *)
  ls_world : World
}.

(** Lines 159-201, for a step with a script. *)
Definition materializeScript (i : nat) (s : Step) (st : loopState) : option (Step * loopState) :=
  let '(fileName, w1) := RestrictLengthWithRandomSuffix ("script-" +:+ pretty i) (ls_world st) in
  let tmpFile := filepath_Join scriptsDir fileName in
  let '(heredoc, w2) :=
    RestrictLengthWithRandomSuffix "script-heredoc-randomly-generated" w1 in
  let body := ls_scriptBody st +:+ scriptFragment tmpFile heredoc (s_Script s) in
  args ← scriptArgs (c_Args (s_Container s)) tmpFile;
  let s1 := on_Container (with_Args args) s in
  let s2 := on_Container (with_VolumeMounts (c_VolumeMounts (s_Container s1) ++ [scriptsVolumeMount])) s1 in
  Some (s2, {| ls_initContainers := ls_initContainers st; ls_podSteps := ls_podSteps st;
               ls_placeScripts := true; ls_scriptBody := body; ls_world := w2 |}).

(** Lines 142-210: what the loop body does to its copy [s] of the step. *)
Definition prepareStep (i : nat) (s : Step) (st : loopState) : option (Step * loopState) :=
  let s := on_Container (with_Env (implicitEnvVars ++ c_Env (s_Container s))) s in
  let s := on_Container (with_VolumeMounts (addImplicitVolumeMounts (c_VolumeMounts (s_Container s)))) s in
  '(s, st) ← (if decide (s_Script s ≠ EmptyString) then materializeScript i s st else Some (s, st));
  let s := if decide (c_WorkingDir (s_Container s) = EmptyString)
           then on_Container (with_WorkingDir workspaceDir) s else s in
  let s := on_Container (with_Name (stepName i (c_Name (s_Container s)))) s in
  Some (s, st).

(** Lines 216-221: the step goes to the init containers or to the pod steps. *)
Definition routeStep (maxIndicesByResource : gmap string Z) (i : nat) (s : Step)
    (st : loopState) : loopState :=
  if decide (c_Name (s_Container s) = entrypointInitName)
  then {| ls_initContainers := ls_initContainers st ++ [s_Container s];
          ls_podSteps := ls_podSteps st; ls_placeScripts := ls_placeScripts st;
          ls_scriptBody := ls_scriptBody st; ls_world := ls_world st |}
  else {| ls_initContainers := ls_initContainers st;
          ls_podSteps := ls_podSteps st ++ [zeroNonMaxResourceRequests s i maxIndicesByResource];
          ls_placeScripts := ls_placeScripts st;
          ls_scriptBody := ls_scriptBody st; ls_world := ls_world st |}.

Definition stepBody (maxIndicesByResource : gmap string Z) (i : nat) (s : Step)
    (st : loopState) : option loopState :=
  '(s', st') ← prepareStep i s st;
  Some (routeStep maxIndicesByResource i s' st').

Fixpoint stepsLoop (maxIndicesByResource : gmap string Z) (i : nat) (steps : list Step)
    (st : loopState) : option loopState :=
  match steps with
  | [] => Some st
  | s :: rest =>
      st' ← stepBody maxIndicesByResource i s st;
      stepsLoop maxIndicesByResource (S i) rest st'
  end.

(** Lines 116-125: the init containers and volumes before the loop. *)
Definition credsPart (creds : option Container) (secretsVolumes : list Volume)
    : list Container * list Volume :=
  match creds with
  | Some c => ([c], secretsVolumes)
  | None => ([], [])
  end.

Definition workingDirPart (images : Images) (taskSpec : TaskSpec) : list Container :=
  match WorkingDirInit (ShellImage images) (ts_Steps taskSpec) implicitVolumeMounts with
  | Some c => [c]
  | None => []
  end.

(** Lines 132-139, with the accumulated script as Args[1]. *)
Definition placeScriptsInitContainer (images : Images) (name body : string) : Container :=
  {| c_Name := name; c_Image := ShellImage images; c_Command := ["sh"];
     c_Args := ["-c"; body]; c_WorkingDir := EmptyString; c_Env := [];
     c_VolumeMounts := [scriptsVolumeMount]; c_Requests := None; c_Limits := None;
     c_TTY := true |}.

(** Lines 127-222: the loop over the steps of the task, started with the
    init containers collected so far. *)
Definition compileSteps (taskSpec : TaskSpec) (initContainers : list Container) (w : World)
    : option loopState :=
  let maxIndicesByResource := findMaxResourceRequest (ts_Steps taskSpec) trackedResources in
  stepsLoop maxIndicesByResource 0 (ts_Steps taskSpec)
    {| ls_initContainers := initContainers; ls_podSteps := []; ls_placeScripts := false;
       ls_scriptBody := EmptyString; ls_world := w |}.

(** Lines 224-236. *)
Definition podVolumes (secretsVolumes : list Volume) (taskRun : TaskRun) (taskSpec : TaskSpec)
    (placeScripts : bool) : list Volume :=
  let volumes := secretsVolumes ++ ts_Volumes taskSpec in
  let volumes := volumes ++ pt_Volumes (tr_PodTemplate taskRun) in
  let volumes := volumes ++ implicitVolumes in
  if placeScripts then volumes ++ [scriptsVolume] else volumes.

Definition podInitContainers (images : Images) (placeScriptsName : string) (st : loopState)
    : list Container :=
  if ls_placeScripts st
  then ls_initContainers st ++ [placeScriptsInitContainer images placeScriptsName (ls_scriptBody st)]
  else ls_initContainers st.

(** Lines 253-260. *)
Definition podContainers (mergedPodSteps : list Step) (sidecars : list Container)
    : list Container :=
  map s_Container mergedPodSteps
  ++ map (λ sc, with_Name (sidecarName (c_Name sc)) sc) sidecars.

Definition NewControllerRef (taskRun : TaskRun) : OwnerReference :=
  {| or_APIVersion := SchemeGroupVersion; or_Kind := "TaskRun"; or_Name := tr_Name taskRun;
     or_UID := tr_UID taskRun; or_Controller := true; or_BlockOwnerDeletion := true |}.

(** Lines 262-291: the Pod that is returned. *)
Definition assemblePod (taskRun : TaskRun) (gibberish : string)
    (initContainers mergedPodContainers : list Container) (volumes : list Volume) : Pod :=
  {| p_Namespace := tr_Namespace taskRun;
     p_Name := tr_Name taskRun +:+ "-pod-" +:+ gibberish;
     p_OwnerReferences := [NewControllerRef taskRun];
     p_Annotations := Some (makeAnnotations taskRun);
     p_Labels := Some (makeLabels taskRun);
     p_RestartPolicy := RestartPolicyNever;
     p_InitContainers := initContainers;
     p_Containers := mergedPodContainers;
     p_ServiceAccountName := GetServiceAccountName taskRun;
     p_Volumes := volumes;
     p_NodeSelector := pt_NodeSelector (tr_PodTemplate taskRun);
     p_Tolerations := pt_Tolerations (tr_PodTemplate taskRun);
     p_Affinity := pt_Affinity (tr_PodTemplate taskRun);
     p_SecurityContext := pt_SecurityContext (tr_PodTemplate taskRun);
     p_RuntimeClassName := pt_RuntimeClassName (tr_PodTemplate taskRun) |}.

(** Lines 238-292, once the loop has left [st]. *)
Definition finishPod (images : Images) (taskRun : TaskRun) (taskSpec : TaskSpec)
    (volumes : list Volume) (placeScriptsName : string) (st : loopState)
    : option Pod * option error * World :=
  let volumes := podVolumes volumes taskRun taskSpec (ls_placeScripts st) in
  let initContainers := podInitContainers images placeScriptsName st in
  match ValidateVolumes volumes with
  | Some err => (None, Some err, ls_world st)
  | None =>
      match ReadAll_randReader 3 (ls_world st) with
      | (_, Some err, w) => (None, Some err, w)
      | (b, None, w) =>
          let gibberish := hex_EncodeToString b in
          match MergeStepsWithStepTemplate (ts_StepTemplate taskSpec) (ls_podSteps st) with
          | (_, Some err) => (None, Some err, w)
          | (mergedPodSteps, None) =>
              (Some (assemblePod taskRun gibberish initContainers
                       (podContainers mergedPodSteps (ts_Sidecars taskSpec)) volumes),
               None, w)
          end
      end
  end.

(** MakePod (lines 112-292). The two Go results are the two options; the
    outer option is [None] when a loop of the body does not end. *)
Definition MakePod (images : Images) (taskRun : TaskRun) (taskSpec : TaskSpec)
    (kubeclient : KubeClient) (w : World) : option (option Pod * option error * World) :=
  match CredsInit (CredsImage images) (GetServiceAccountName taskRun) (tr_Namespace taskRun)
                  kubeclient implicitVolumeMounts implicitEnvVars with
  | (_, _, Some err) => Some (None, Some err, w)
  | (credsInitContainer, secretsVolumes, None) =>
      let '(initContainers, volumes) := credsPart credsInitContainer secretsVolumes in
      let initContainers := initContainers ++ workingDirPart images taskSpec in
      let '(placeScriptsName, w) := RestrictLengthWithRandomSuffix "place-scripts" w in
      st ← compileSteps taskSpec initContainers w;
      Some (finishPod images taskRun taskSpec volumes placeScriptsName st)
  end.

End Compiler.

(** ** The readiness marker (lines 294-310) *)

Definition pod_with_Annotations (a : option StringMap) (p : Pod) : Pod :=
  {| p_Namespace := p_Namespace p; p_Name := p_Name p;
     p_OwnerReferences := p_OwnerReferences p; p_Annotations := a; p_Labels := p_Labels p;
     p_RestartPolicy := p_RestartPolicy p; p_InitContainers := p_InitContainers p;
     p_Containers := p_Containers p; p_ServiceAccountName := p_ServiceAccountName p;
     p_Volumes := p_Volumes p; p_NodeSelector := p_NodeSelector p;
     p_Tolerations := p_Tolerations p; p_Affinity := p_Affinity p;
     p_SecurityContext := p_SecurityContext p; p_RuntimeClassName := p_RuntimeClassName p |}.

(** [p.ObjectMeta.Annotations[ReadyAnnotation]]: a missing key, or a nil
    map, reads as the empty string. *)
Definition readyAnnotationOf (p : Pod) : string :=
  default EmptyString (default ∅ (p_Annotations p) !! ReadyAnnotation).

Definition isReady (p : Pod) : Prop := readyAnnotationOf p = readyAnnotationValue.

Section Readiness.
Context {W : Type}.

(** [UpdatePod]: the callee gets the pointer, so it may leave the unit
    changed; it has a state of its own (the store it writes to). The
    results are the unit as the callee leaves it, the callee's state and
    the error. The [*Pod] result is dropped by AddReadyAnnotation. *)
Definition UpdatePod : Type := Pod → W → Pod * W * option error.

(** The unit behind the pointer [p], the state of the update collaborator,
    and the record of the update calls made so far, each with the unit as
    it was handed over. *)
Record heap := { h_unit : Pod; h_store : W; h_updates : list Pod }.

Definition AddReadyAnnotation (update : UpdatePod) (h : heap) : heap * option error :=
  let p := h_unit h in
  let p := match p_Annotations p with
           | None => pod_with_Annotations (Some ∅) p
           | Some _ => p
           end in
  if decide (readyAnnotationOf p ≠ readyAnnotationValue) then
    let p := pod_with_Annotations
               (Some (<[ReadyAnnotation := readyAnnotationValue]> (default ∅ (p_Annotations p)))) p in
    let '(p', store', err) := update p (h_store h) in
    ({| h_unit := p'; h_store := store'; h_updates := h_updates h ++ [p] |}, err)
  else
    ({| h_unit := p; h_store := h_store h; h_updates := h_updates h |}, None).

(** An update function that does not take the canonical value off the
    unit it is handed. *)
Definition keepsReady (update : UpdatePod) : Prop :=
  ∀ p w, isReady p → isReady (update p w).1.1.

End Readiness.

Arguments heap : clear implicits.
Arguments UpdatePod : clear implicits.

(** ** What the specification says about the script arguments and the
    consolidated requests, in its own words *)

(** The position of the first redirect flag. *)
Fixpoint flagIndex (args : list string) : option nat :=
  match args with
  | [] => None
  | a :: rest => if decide (a = entrypointFlag) then Some O else S <$> flagIndex rest
  end.

(** Specification 4.2, step 4: the path is appended, or, when the flag is
    there, it replaces the argument after the flag and the rest stays. *)
Definition specScriptArgs (args : list string) (tmpFile : string) : list string :=
  match flagIndex args with
  | Some k => <[S k := tmpFile]> args
  | None => args ++ [tmpFile]
  end.

(** What lines 194-199 leave: the arguments up to the first flag, then the
    path. *)
Definition cutScriptArgs (args : list string) (tmpFile : string) : list string :=
  match flagIndex args with
  | Some k => take (S k) args ++ [tmpFile]
  | None => args ++ [tmpFile]
  end.

(** What is left of the part of the list the loop has not looked at yet. *)
Definition cutRest (rest : list string) (tmpFile : string) : list string :=
  match flagIndex rest with
  | Some k => take (S k) rest ++ [tmpFile]
  | None => rest
  end.

(** The arguments of a step with a script, once rewritten. *)
Definition scriptArgsOf (s : Step) (c : Container) : Prop :=
  ∃ fileName,
    let tmpFile := filepath_Join scriptsDir fileName in
    let args := c_Args (s_Container s) in
    scriptArgs args tmpFile = Some (c_Args c) ∧
    last (c_Args c) = Some tmpFile ∧
    match flagIndex args with
    | None => (entrypointFlag ∉ args) ∧ c_Args c = args ++ [tmpFile]
    | Some k =>
        args !! k = Some entrypointFlag ∧
        (∀ j a, (j < k)%nat → args !! j = Some a → a ≠ entrypointFlag) ∧
        c_Args c = take (S k) args ++ [tmpFile]
    end.

(** Step [i] is a record step for [name]: it asks for a positive quantity
    that is strictly greater than what every earlier step asks for. *)
Definition recordStep (steps : list Step) (name : ResourceName) (i : nat) : Prop :=
  ∃ s q, steps !! i = Some s ∧ requestOf (s_Container s) name = Some q ∧ 0 < q ∧
         ∀ j s' q', (j < i)%nat → steps !! j = Some s' →
                    requestOf (s_Container s') name = Some q' → q' < q.

(** Step [i] holds the maximum for [name] and is the earliest to do so. *)
Definition firstMaxStep (steps : list Step) (name : ResourceName) (i : nat) : Prop :=
  recordStep steps name i ∧
  ∃ s q, steps !! i = Some s ∧ requestOf (s_Container s) name = Some q ∧
         ∀ j s' q', steps !! j = Some s' → requestOf (s_Container s') name = Some q' → q' ≤ q.

(** The step the sentence of the specification picks: the earliest record
    step. *)
Definition claimedRetainer (steps : list Step) (name : ResourceName) (i : nat) : Prop :=
  recordStep steps name i ∧ ∀ j, recordStep steps name j → (i ≤ j)%nat.

Definition noPositiveRequest (steps : list Step) (name : ResourceName) : Prop :=
  ∀ j s q, steps !! j = Some s → requestOf (s_Container s) name = Some q → q ≤ 0.

(** The request a step is left with when it stays a pod step. *)
Definition consolidatedRequest (steps : list Step) (i : nat) (s : Step) (name : ResourceName)
    : option Quantity :=
  requestOf (s_Container (zeroNonMaxResourceRequests s i
                            (findMaxResourceRequest steps trackedResources))) name.

(** ** Auxiliary views used by the proofs *)

(** What findMaxResourceRequest holds for one resource name: the index (if
    the name has an entry) and the quantity read from [maxReqs]. *)
Definition view (st : maxState) (name : ResourceName) : option Z * Z :=
  (maxIdxs st !! name, default zeroQty (maxReqs st !! name)).

Definition bump1 (i : nat) (s : Step) (name : ResourceName) (v : option Z * Z) : option Z * Z :=
  match requestOf (s_Container s) name with
  | Some req => if decide (v.2 < req) then (Some (Z.of_nat i), req) else v
  | None => v
  end.

Fixpoint runningMax (name : ResourceName) (i : nat) (steps : list Step) (v : option Z * Z)
    : option Z * Z :=
  match steps with
  | [] => v
  | s :: rest => runningMax name (S i) rest (bump1 i s name v)
  end.

Fixpoint indexedFrom (i : nat) (steps : list Step) : list (nat * Step) :=
  match steps with
  | [] => []
  | s :: rest => (i, s) :: indexedFrom (S i) rest
  end.

Definition hasScript (s : Step) : bool := bool_decide (s_Script s ≠ EmptyString).

Section LoopViews.
Context {collab : Collaborators}.

(** The test of line 216, on a step of the task and its index. *)
Definition goesToInit (p : nat * Step) : Prop :=
  stepName p.1 (c_Name (s_Container p.2)) = entrypointInitName.

#[global] Instance goesToInit_dec p : Decision (goesToInit p).
Proof. unfold goesToInit. apply _. Defined.

Definition initSteps (steps : list Step) : list (nat * Step) :=
  filter goesToInit (indexedFrom 0 steps).

Definition keptSteps (steps : list Step) : list (nat * Step) :=
  filter (λ p, ¬ goesToInit p) (indexedFrom 0 steps).

(** The copy [s] of step [i] when the loop body reaches line 211, given
    the path of its script file. *)
Definition preparedStep (i : nat) (s : Step) (tmpFile : string) : Step :=
  let c := s_Container s in
  {| s_Container :=
       {| c_Name := stepName i (c_Name c);
          c_Image := c_Image c;
          c_Command := c_Command c;
          c_Args := if hasScript s then cutScriptArgs (c_Args c) tmpFile else c_Args c;
          c_WorkingDir := if decide (c_WorkingDir c = EmptyString)
                          then workspaceDir else c_WorkingDir c;
          c_Env := implicitEnvVars ++ c_Env c;
          c_VolumeMounts := addImplicitVolumeMounts (c_VolumeMounts c)
                            ++ (if hasScript s then [scriptsVolumeMount] else []);
          c_Requests := c_Requests c;
          c_Limits := c_Limits c;
          c_TTY := c_TTY c |};
     s_Script := s_Script s |}.

(** A pod step of the loop comes from step [p.2] at index [p.1]. *)
Definition podStepOf (steps : list Step) (p : nat * Step) (s' : Step) : Prop :=
  ∃ fileName,
    s' = zeroNonMaxResourceRequests (preparedStep p.1 p.2 (filepath_Join scriptsDir fileName))
           p.1 (findMaxResourceRequest steps trackedResources).

(** An init container of the loop comes from step [p.2] at index [p.1]. *)
Definition initContainerOf (p : nat * Step) (c : Container) : Prop :=
  ∃ fileName, c = s_Container (preparedStep p.1 p.2 (filepath_Join scriptsDir fileName)).

(** Specification 4.1 and 4.2: the mounts of a compiled step are the
    declared ones, then each implicit mount whose cleaned path no declared
    mount has, then the script mount when the step has a script. *)
Definition noMountAt (mounts : list VolumeMount) (imp : VolumeMount) : Prop :=
  Forall (λ vm, filepath_Clean (vm_MountPath vm) ≠ filepath_Clean (vm_MountPath imp)) mounts.

#[global] Instance noMountAt_dec mounts imp : Decision (noMountAt mounts imp).
Proof. unfold noMountAt. apply _. Defined.

Definition specVolumeMounts (s : Step) : list VolumeMount :=
  c_VolumeMounts (s_Container s)
  ++ filter (noMountAt (c_VolumeMounts (s_Container s))) implicitVolumeMounts
  ++ (if hasScript s then [scriptsVolumeMount] else []).

End LoopViews.

(** ** A concrete set of collaborators, for running the compiler *)

(** Modelled from the spec: the naming utility's length restriction of
    pkg/names, which is not among the sources; a name longer than the
    63 characters of a container name is cut there. *)
Definition cutTo63 (base : string) : string := String.substring 0 63 base.

(** Stand-in for filepath.Clean on paths without dot elements or repeated
    separators: a trailing separator is dropped. *)
Fixpoint dropTrailingSlash (path : string) : string :=
  match path with
  | EmptyString => EmptyString
  | String c EmptyString => if decide (c = "/"%char) then EmptyString else path
  | String c rest => String c (dropTrailingSlash rest)
  end.

Definition demoClean (path : string) : string :=
  match dropTrailingSlash path with
  | EmptyString => if HasPrefix path "/" then "/" else "."
  | p => p
  end.

Definition demoWorkingDirInit (image : string) (steps : list Step) (mounts : list VolumeMount)
    : option Container :=
  if existsb (λ s, negb (bool_decide (c_WorkingDir (s_Container s) = EmptyString))) steps
  then Some {| c_Name := "working-dir-initializer"; c_Image := image; c_Command := ["sh"];
               c_Args := ["-c"; "mkdir -p"]; c_WorkingDir := workspaceDir; c_Env := [];
               c_VolumeMounts := mounts; c_Requests := None; c_Limits := None; c_TTY := false |}
  else None.

Definition demoValidateVolumes (volumes : list Volume) : option error :=
  if bool_decide (NoDup (map vol_Name volumes)) then None
  else Some "multiple volumes with same name".

Definition demoMerge (template : option Container) (steps : list Step)
    : list Step * option error :=
  match template with
  | None => (steps, None)
  | Some t =>
      if decide (c_Image t = "!")
      then ([], Some "step template cannot be merged")
      else (map (λ s, if decide (c_Image (s_Container s) = EmptyString)
                      then {| s_Container :=
                                {| c_Name := c_Name (s_Container s); c_Image := c_Image t;
                                   c_Command := c_Command (s_Container s);
                                   c_Args := c_Args (s_Container s);
                                   c_WorkingDir := c_WorkingDir (s_Container s);
                                   c_Env := c_Env (s_Container s);
                                   c_VolumeMounts := c_VolumeMounts (s_Container s);
                                   c_Requests := c_Requests (s_Container s);
                                   c_Limits := c_Limits (s_Container s);
                                   c_TTY := c_TTY (s_Container s) |};
                              s_Script := s_Script s |}
                      else s) steps, None)
  end.

(** The random sources are a counter: the suffix is its decimal form, and
    the reader gives out three bytes until the counter reaches 1000. *)
#[global] Instance demo : Collaborators := {|
  World := nat;
  KubeClient := option Container * list Volume * option error;
  CredsInit := λ _ _ _ client _ _, client;
  WorkingDirInit := demoWorkingDirInit;
  RestrictLengthWithRandomSuffix := λ base w, (base +:+ "-" +:+ pretty w, S w);
  RestrictLength := cutTo63;
  InitContainerName := "place-tools";
  ValidateVolumes := demoValidateVolumes;
  MergeStepsWithStepTemplate := demoMerge;
  ReadAll_randReader := λ n w,
    if decide (1000 ≤ w)%nat then ([], Some "random source failed", w)
    else (repeat Byte.x2a n, None, S w);
  filepath_Clean := demoClean;
  GetServiceAccountName := tr_ServiceAccount;
  GroupName := "tekton.dev";
  TaskRunLabelKey := "/taskRun";
  SchemeGroupVersion := "tekton.dev/v1alpha1"
|}.

Definition plainContainer (name image : string) : Container :=
  {| c_Name := name; c_Image := image; c_Command := []; c_Args := []; c_WorkingDir := EmptyString;
     c_Env := []; c_VolumeMounts := []; c_Requests := None; c_Limits := None; c_TTY := false |}.

Definition cpuStep (name : string) (cpu : Z) : Step :=
  {| s_Container := with_Requests (Some {[ ResourceCPU := cpu ]}) (plainContainer name "busybox");
     s_Script := EmptyString |}.

(** A quantity given in thousandths, as in [100m]. *)
Definition milli (n : Z) : Quantity := n * 1000000.

(** Three steps asking for 100m, 500m and 200m of CPU. *)
Definition steps3 : list Step :=
  [cpuStep "fetch" (milli 100); cpuStep "build" (milli 500); cpuStep "push" (milli 200)].

Definition scriptStep (name script : string) (args : list string) : Step :=
  {| s_Container := with_Args args (plainContainer name "busybox"); s_Script := script |}.

(** A step named as the entrypoint carrier, with a working directory. *)
Definition toolsStep : Step :=
  {| s_Container := with_WorkingDir "/tools" (plainContainer "place-tools" "entrypoint");
     s_Script := EmptyString |}.

(** A step that mounts its own volume at the workspace path. *)
Definition ownWorkspaceStep : Step :=
  {| s_Container :=
       with_VolumeMounts [ {| vm_Name := "source"; vm_MountPath := "/workspace/" |} ]
         (plainContainer "build" "golang");
     s_Script := EmptyString |}.

(** Labels of an invocation that set the managed-by label and try to set
    the label of the invocation identity. *)
Definition customLabels : StringMap :=
  {[ ManagedByLabelKey := "custom"; "tekton.dev/taskRun" := "someone-else" ]}.

(** A name of seventy characters. *)
Definition longName : string :=
  "a123456789b123456789c123456789d123456789e123456789f123456789g123456789".

Definition demoImages : Images := {| CredsImage := "creds-init"; ShellImage := "busybox" |}.

Definition demoTaskRun (labels : StringMap) : TaskRun :=
  {| tr_Name := "build-run"; tr_Namespace := "ci"; tr_UID := "uid-1"; tr_Labels := labels;
     tr_Annotations := ∅; tr_ServiceAccount := "default";
     tr_PodTemplate := {| pt_Volumes := []; pt_NodeSelector := ∅; pt_Tolerations := [];
                          pt_Affinity := None; pt_SecurityContext := None;
                          pt_RuntimeClassName := None |} |}.

Definition demoTask (steps : list Step) (volumes : list Volume) (template : option Container)
    : TaskSpec :=
  {| ts_Steps := steps; ts_Sidecars := [plainContainer "proxy" "envoy"];
     ts_StepTemplate := template; ts_Volumes := volumes |}.

Definition demoCreds : option Container * list Volume * option error :=
  (Some (plainContainer "credential-initializer" "creds-init"),
   [ {| vol_Name := "secret-volume"; vol_Source := SecretSource "git-ssh" |} ], None).

Definition noCreds : option Container * list Volume * option error := (None, [], None).

Definition emptyPod : Pod :=
  {| p_Namespace := "ci"; p_Name := "build-run-pod-2a2a2a"; p_OwnerReferences := [];
     p_Annotations := None; p_Labels := None; p_RestartPolicy := RestartPolicyNever;
     p_InitContainers := []; p_Containers := []; p_ServiceAccountName := "default";
     p_Volumes := []; p_NodeSelector := ∅; p_Tolerations := []; p_Affinity := None;
     p_SecurityContext := None; p_RuntimeClassName := None |}.

(** The unit as AddReadyAnnotation hands it to the update function. *)
Definition markedReady (p : Pod) : Pod :=
  pod_with_Annotations
    (Some (<[ReadyAnnotation := readyAnnotationValue]> (default ∅ (p_Annotations p)))) p.

(** An update collaborator that counts its calls and fails on every other
    one, the first included. *)
Definition flakyUpdate : UpdatePod nat :=
  λ p n, (p, S n, if Nat.even n then Some "conflict" else None).

(** A unit that has just been created, and no update call made yet. *)
Definition freshHeap : heap nat := {| h_unit := emptyPod; h_store := 0%nat; h_updates := [] |}.

(** ** The loop step by step: the names it draws and what they go into *)

Section Trace.
Context {collab : Collaborators}.

(** What step [s] adds to the script of the place-scripts container, given
    the file name and the delimiter drawn for it. *)
Definition stepFragment (s : Step) (fileName heredoc : string) : string :=
  if hasScript s
  then scriptFragment (filepath_Join scriptsDir fileName) heredoc (s_Script s)
  else EmptyString.

(** [tr] lists, step by step, the file name and the delimiter. *)
Fixpoint traceBody (steps : list Step) (tr : list (string * string)) : string :=
  match steps, tr with
  | s :: rest, (f, h) :: tr' => stepFragment s f h +:+ traceBody rest tr'
  | _, _ => EmptyString
  end.

Fixpoint tracePod (M : gmap string Z) (i : nat) (steps : list Step)
    (tr : list (string * string)) : list Step :=
  match steps, tr with
  | s :: rest, (f, h) :: tr' =>
      (if decide (goesToInit (i, s)) then []
       else [zeroNonMaxResourceRequests (preparedStep i s (filepath_Join scriptsDir f)) i M])
      ++ tracePod M (S i) rest tr'
  | _, _ => []
  end.

Fixpoint traceInit (i : nat) (steps : list Step) (tr : list (string * string))
    : list Container :=
  match steps, tr with
  | s :: rest, (f, h) :: tr' =>
      (if decide (goesToInit (i, s))
       then [s_Container (preparedStep i s (filepath_Join scriptsDir f))] else [])
      ++ traceInit (S i) rest tr'
  | _, _ => []
  end.

End Trace.

(** A step that asks for a resource the compiler does not track, and has
    limits. *)
Definition gpuStep : Step :=
  {| s_Container :=
       {| c_Name := "train"; c_Image := "cuda"; c_Command := ["python"]; c_Args := ["train.py"];
          c_WorkingDir := "/src"; c_Env := [ {| ev_Name := "HOME"; ev_Value := "/root" |} ];
          c_VolumeMounts := [];
          c_Requests := Some {[ "nvidia.com/gpu" := 1; ResourceCPU := milli 250 ]};
          c_Limits := Some {[ ResourceMemory := 1000000000 ]};
          c_TTY := false |};
     s_Script := EmptyString |}.

(** * Properties *)

(** ** Resource request consolidation *)

Section MaxRequest.

Lemma view_initMax st name k :
  view (initMax st name) k = if decide (name = k) then (Some (-1), zeroQty) else view st k.
Proof.
  unfold view, initMax; simpl. case_decide as Hk.
  - subst. by rewrite !lookup_insert_eq.
  - by rewrite !lookup_insert_ne.
Qed.

Lemma view_foldl_initMax names st k :
  view (foldl initMax st names) k = if decide (k ∈ names) then (Some (-1), zeroQty) else view st k.
Proof.
  revert st. induction names as [|name names IH]; intros st; cbn [foldl].
  - rewrite decide_False; [done | apply not_elem_of_nil].
  - rewrite IH, view_initMax.
    destruct (decide (k ∈ names)) as [Hin|Hin].
    + rewrite decide_True; [done | by right].
    + destruct (decide (name = k)) as [->|Hne].
      * rewrite decide_True; [done | by left].
      * rewrite decide_False; [done |]. rewrite elem_of_cons. by intros [->|?].
Qed.

Lemma view_bumpMax_same i s st k : view (bumpMax i s st k) k = bump1 i s k (view st k).
Proof.
  unfold bumpMax, bump1, view, Cmp; simpl.
  destruct (requestOf (s_Container s) k) as [req|]; [|done].
  destruct (Z.compare_spec req (default zeroQty (maxReqs st !! k))) as [Heq|Hlt|Hgt].
  - rewrite decide_False; [done | lia].
  - rewrite decide_False; [done | lia].
  - rewrite decide_True by lia. simpl. by rewrite !lookup_insert_eq.
Qed.

Lemma view_bumpMax_other i s st name k : name ≠ k → view (bumpMax i s st name) k = view st k.
Proof.
  intros Hne. unfold bumpMax, view.
  destruct (requestOf (s_Container s) name) as [req|]; [|done].
  destruct (Cmp req _); try done. simpl. by rewrite !lookup_insert_ne.
Qed.

Lemma bump1_idem i s k v : bump1 i s k (bump1 i s k v) = bump1 i s k v.
Proof.
  unfold bump1. destruct (requestOf (s_Container s) k) as [req|]; [|done].
  destruct (decide (v.2 < req)) as [Hlt|Hge]; simpl.
  - rewrite decide_False; [done | lia].
  - by rewrite decide_False.
Qed.

Lemma view_foldl_bumpMax i s names st k :
  view (foldl (bumpMax i s) st names) k
  = if decide (k ∈ names) then bump1 i s k (view st k) else view st k.
Proof.
  revert st. induction names as [|name names IH]; intros st; cbn [foldl].
  - rewrite decide_False; [done | apply not_elem_of_nil].
  - rewrite IH. destruct (decide (name = k)) as [->|Hne].
    + rewrite view_bumpMax_same, bump1_idem.
      rewrite (decide_True (P := k ∈ k :: names)) by (by left).
      by case_decide.
    + rewrite view_bumpMax_other by done.
      destruct (decide (k ∈ names)) as [Hin|Hin].
      * rewrite decide_True; [done | by right].
      * rewrite decide_False; [done |]. rewrite elem_of_cons. by intros [->|?].
Qed.

Lemma view_scanSteps names k i steps st :
  k ∈ names → view (scanSteps names i steps st) k = runningMax k i steps (view st k).
Proof.
  intros Hin. revert i st. induction steps as [|s rest IH]; intros i st; simpl; [done|].
  rewrite IH, view_foldl_bumpMax. by rewrite decide_True.
Qed.

Lemma findMax_lookup steps names k :
  k ∈ names →
  findMaxResourceRequest steps names !! k = (runningMax k 0 steps (Some (-1), zeroQty)).1.
Proof.
  intros Hin. unfold findMaxResourceRequest.
  pose proof (view_scanSteps names k 0 steps
                (foldl initMax {| maxIdxs := ∅; maxReqs := ∅ |} names) Hin) as Hv.
  rewrite view_foldl_initMax, decide_True in Hv by done.
  rewrite <- Hv. done.
Qed.

(** What the running maximum is after the steps from index [i] on. *)
Lemma runningMax_spec k steps : ∀ i v,
  let r := runningMax k i steps v in
  v.2 ≤ r.2 ∧
  (∀ j s q, steps !! j = Some s → requestOf (s_Container s) k = Some q → q ≤ r.2) ∧
  ((r = v ∧ ∀ j s q, steps !! j = Some s → requestOf (s_Container s) k = Some q → q ≤ v.2)
   ∨ (∃ j s, r = (Some (Z.of_nat (i + j)), r.2) ∧ steps !! j = Some s ∧
             requestOf (s_Container s) k = Some r.2 ∧ v.2 < r.2 ∧
             ∀ j' s' q', (j' < j)%nat → steps !! j' = Some s' →
                         requestOf (s_Container s') k = Some q' → q' < r.2)).
Proof.
  induction steps as [|s rest IH]; intros i v; simpl.
  - split; [lia|]. split; [by intros j s q Hj; rewrite lookup_nil in Hj|].
    left. split; [done|]. by intros j s q Hj; rewrite lookup_nil in Hj.
  - specialize (IH (S i) (bump1 i s k v)). simpl in IH.
    set (r := runningMax k (S i) rest (bump1 i s k v)) in *.
    destruct IH as (Hle & Hall & Hcase).
    assert (Hb : v.2 ≤ (bump1 i s k v).2 ∧
                 ∀ q, requestOf (s_Container s) k = Some q → q ≤ (bump1 i s k v).2).
    { unfold bump1. destruct (requestOf (s_Container s) k) as [req|]; [|by split; [lia|]].
      case_decide; simpl; split; try lia; intros q [= <-]; lia. }
    destruct Hb as (Hb1 & Hb2).
    split; [lia|]. split.
    { intros [|j] s' q Hj Hq; simpl in Hj.
      - injection Hj as <-. specialize (Hb2 _ Hq). lia.
      - eauto. }
    destruct Hcase as [(Hr & Hrest)|(j & s' & Hr & Hj & Hq & Hlt & Hbefore)].
    + unfold bump1 in Hr, Hrest, Hb2.
      destruct (requestOf (s_Container s) k) as [req|] eqn:Hreq.
      * destruct (decide (v.2 < req)) as [Hgt|Hngt]; simpl in *.
        -- right. exists O, s. rewrite Hr; simpl. replace (i + 0)%nat with i by lia.
           repeat split; try done. intros j' s' q' Hj'. lia.
        -- left. split; [done|]. intros [|j] s' q Hj Hq; simpl in Hj.
           ++ injection Hj as <-. rewrite Hreq in Hq. injection Hq as <-. lia.
           ++ eauto.
      * left. split; [done|]. intros [|j] s' q Hj Hq; simpl in Hj.
        -- injection Hj as <-. congruence.
        -- eauto.
    + right. exists (S j), s'. replace (i + S j)%nat with (S i + j)%nat by lia.
      repeat split; try done; [lia|].
      intros [|j'] s'' q' Hj' Hs'' Hq'; simpl in Hs''.
      * injection Hs'' as <-. specialize (Hb2 _ Hq'). lia.
      * apply (Hbefore j' s'' q'); [lia | done | done].
Qed.

(** The index findMaxResourceRequest returns for a tracked name. *)
Lemma findMax_cases steps names k :
  k ∈ names →
  (findMaxResourceRequest steps names !! k = Some (-1) ∧ noPositiveRequest steps k)
  ∨ (∃ i, findMaxResourceRequest steps names !! k = Some (Z.of_nat i) ∧ firstMaxStep steps k i).
Proof.
  intros Hin. rewrite findMax_lookup by done.
  pose proof (runningMax_spec k steps 0 (Some (-1), zeroQty)) as Hspec. simpl in Hspec.
  set (r := runningMax k 0 steps (Some (-1), zeroQty)) in *.
  destruct Hspec as (Hle & Hall & [(Hr & Hnone)|(j & s & Hr & Hj & Hq & Hlt & Hbefore)]).
  - left. rewrite Hr. split; [done|]. exact Hnone.
  - right. exists j. rewrite Hr. split; [done|]. split.
    + exists s, r.2. unfold zeroQty in Hlt. repeat split; try done.
    + exists s, r.2. repeat split; try done.
Qed.

Lemma firstMaxStep_unique steps k i j :
  firstMaxStep steps k i → firstMaxStep steps k j → i = j.
Proof.
  intros [(si & qi & Hi & Hqi & _ & Hbi) (si' & qi' & Hi' & Hqi' & Hmaxi)]
         [(sj & qj & Hj & Hqj & _ & Hbj) (sj' & qj' & Hj' & Hqj' & Hmaxj)].
  simplify_eq.
  destruct (Nat.lt_trichotomy i j) as [Hlt|[Heq|Hgt]]; [|done|].
  - specialize (Hbj i si qi Hlt Hi Hqi). specialize (Hmaxi j sj qj Hj Hqj). lia.
  - specialize (Hbi j sj qj Hgt Hj Hqj). specialize (Hmaxj i si qi Hi Hqi). lia.
Qed.

Lemma zeroNonMax_request s i (M : gmap string Z) (k : string) :
  requestOf (s_Container (zeroNonMaxResourceRequests s i M)) k
  = match M !! k with
    | Some idx => if decide (idx ≠ Z.of_nat i) then Some zeroQty
                  else requestOf (s_Container s) k
    | None => requestOf (s_Container s) k
    end.
Proof.
  unfold zeroNonMaxResourceRequests, requestOf at 1. simpl.
  set (f := λ (name : string) (maxIdx : Z) (acc : gmap string Z),
              if decide (maxIdx ≠ Z.of_nat i) then <[name := zeroQty]> acc else acc).
  set (reqs := default ∅ (c_Requests (s_Container s))).
  assert (Hbase : requestOf (s_Container s) k = reqs !! k).
  { unfold requestOf, reqs. destruct (c_Requests (s_Container s)); [done|].
    simpl. by rewrite lookup_empty. }
  rewrite Hbase.
  apply (map_fold_weak_ind (λ acc (m : gmap string Z),
           acc !! k = match m !! k with
                      | Some idx => if decide (idx ≠ Z.of_nat i) then Some zeroQty else reqs !! k
                      | None => reqs !! k
                      end)).
  - by rewrite lookup_empty.
  - intros name idx m acc Hfresh IH. unfold f.
    destruct (decide (name = k)) as [->|Hne].
    + rewrite lookup_insert_eq. case_decide.
      * by rewrite lookup_insert_eq.
      * rewrite Hfresh in IH. exact IH.
    + rewrite lookup_insert_ne by done. case_decide.
      * by rewrite lookup_insert_ne.
      * done.
Qed.

End MaxRequest.

(** ** The script argument rewrite *)

Section ScriptArgs.

Lemma take_S_middle {A} (pre : list A) a rest :
  take (S (List.length pre)) (pre ++ a :: rest) = pre ++ [a].
Proof.
  rewrite cons_middle, app_assoc. apply take_app_length'.
  rewrite length_app. simpl. lia.
Qed.

Lemma entrypointLoop_returns tmpFile (Htmp : tmpFile ≠ entrypointFlag) rest :
  ∀ pre fuel, (List.length rest + 2 ≤ fuel)%nat →
    entrypointLoop fuel (List.length pre) (pre ++ rest) tmpFile
    = Some (pre ++ cutRest rest tmpFile).
Proof.
  induction rest as [|a rest IH]; intros pre fuel Hfuel; simpl in Hfuel.
  - destruct fuel as [|fuel]; [lia|]. simpl.
    rewrite lookup_ge_None_2 by (rewrite length_app; simpl; lia). done.
  - destruct fuel as [|fuel]; [lia|]. cbn [entrypointLoop].
    rewrite list_lookup_middle by done.
    unfold cutRest. cbn [flagIndex].
    destruct (decide (a = entrypointFlag)) as [Ha|Ha].
    + rewrite take_S_middle.
      destruct fuel as [|fuel]; [lia|]. cbn [entrypointLoop].
      replace ((pre ++ [a]) ++ [tmpFile]) with ((pre ++ [a]) ++ tmpFile :: []) by done.
      rewrite (list_lookup_middle (pre ++ [a]) [] tmpFile (S (List.length pre)))
        by (rewrite length_app; simpl; lia).
      rewrite decide_False by done.
      destruct fuel as [|fuel]; [lia|]. cbn [entrypointLoop].
      rewrite lookup_ge_None_2 by (rewrite !length_app; simpl; lia).
      simpl. by rewrite <- app_assoc.
    + rewrite cons_middle, app_assoc.
      replace (S (List.length pre)) with (List.length (pre ++ [a]))
        by (rewrite length_app; simpl; lia).
      rewrite IH by lia. unfold cutRest.
      destruct (flagIndex rest) as [k|]; simpl; by rewrite <- app_assoc.
Qed.

Lemma flagIndex_lt args k : flagIndex args = Some k → (k < List.length args)%nat.
Proof.
  revert k. induction args as [|a args IH]; intros k; simpl; [done|].
  case_decide; [intros [= <-]; lia|].
  destruct (flagIndex args) as [k'|]; simpl; [|done].
  intros [= <-]. specialize (IH k' eq_refl). lia.
Qed.

Lemma flagIndex_app_other args tmpFile :
  tmpFile ≠ entrypointFlag → flagIndex (args ++ [tmpFile]) = flagIndex args.
Proof.
  intros Htmp. induction args as [|a args IH]; simpl.
  - by rewrite decide_False.
  - case_decide; [done|]. by rewrite IH.
Qed.

Lemma flagIndex_Some args k :
  flagIndex args = Some k →
  args !! k = Some entrypointFlag ∧ ∀ j a, (j < k)%nat → args !! j = Some a → a ≠ entrypointFlag.
Proof.
  revert k. induction args as [|a args IH]; intros k; simpl; [done|].
  case_decide as Ha.
  - intros [= <-]. split; [by subst|]. intros; lia.
  - destruct (flagIndex args) as [k'|]; simpl; [|done].
    intros [= <-]. destruct (IH k' eq_refl) as [Hk Hbefore]. split; [done|].
    intros [|j] b Hj Hb; simpl in Hb; [by injection Hb as <-|].
    apply (Hbefore j); [lia | done].
Qed.

Lemma flagIndex_None args : flagIndex args = None → entrypointFlag ∉ args.
Proof.
  induction args as [|a args IH]; simpl; [intros _; apply not_elem_of_nil|].
  case_decide as Ha; [done|].
  destruct (flagIndex args); simpl; [done|]. intros _.
  rewrite elem_of_cons. intros [Heq|Hin]; [by subst | by apply IH].
Qed.

(** The loop of lines 195-199 ends, with the arguments cut after the
    first flag. *)
Lemma scriptArgs_cut args tmpFile :
  tmpFile ≠ entrypointFlag → scriptArgs args tmpFile = Some (cutScriptArgs args tmpFile).
Proof.
  intros Htmp. unfold scriptArgs.
  pose proof (entrypointLoop_returns tmpFile Htmp (args ++ [tmpFile]) [] (List.length args + 3))
    as Hloop.
  simpl in Hloop. rewrite Hloop by (rewrite length_app; simpl; lia).
  f_equal. unfold cutRest, cutScriptArgs. rewrite flagIndex_app_other by done.
  destruct (flagIndex args) as [k|] eqn:Hk; [|done].
  apply flagIndex_lt in Hk. rewrite take_app_le by lia. done.
Qed.

(** A path that is itself the flag keeps the loop going for ever. *)
Lemma entrypointLoop_flag_grows fuel : ∀ pre,
  entrypointLoop fuel (List.length pre) (pre ++ [entrypointFlag]) entrypointFlag = None.
Proof.
  induction fuel as [|fuel IH]; intros pre; [done|]. cbn [entrypointLoop].
  rewrite list_lookup_middle by done. rewrite decide_True by done.
  rewrite take_ge by (rewrite length_app; simpl; lia).
  replace (S (List.length pre)) with (List.length (pre ++ [entrypointFlag]))
    by (rewrite length_app; simpl; lia).
  apply IH.
Qed.

Lemma scriptArgs_flag_path_diverges rest : ∀ pre fuel,
  entrypointLoop fuel (List.length pre) (pre ++ rest ++ [entrypointFlag]) entrypointFlag = None.
Proof.
  induction rest as [|a rest IH]; intros pre fuel.
  - apply entrypointLoop_flag_grows.
  - destruct fuel as [|fuel]; [done|]. cbn [entrypointLoop].
    change ((a :: rest) ++ [entrypointFlag]) with (a :: (rest ++ [entrypointFlag])).
    rewrite list_lookup_middle by done.
    case_decide as Ha.
    + rewrite take_S_middle. subst a.
      replace (S (List.length pre)) with (List.length (pre ++ [entrypointFlag]))
        by (rewrite length_app; simpl; lia).
      apply entrypointLoop_flag_grows.
    + rewrite cons_middle, app_assoc.
      replace (S (List.length pre)) with (List.length (pre ++ [a]))
        by (rewrite length_app; simpl; lia).
      apply IH.
Qed.

Lemma join_scriptsDir_not_flag fileName : filepath_Join scriptsDir fileName ≠ entrypointFlag.
Proof. unfold filepath_Join, scriptsDir, entrypointFlag. simpl. discriminate. Qed.

End ScriptArgs.

(** ** The loop over the steps *)

Section Loop.
Context {collab : Collaborators}.

Lemma prepareStep_spec i s st :
  ∃ fileName st',
    prepareStep i s st = Some (preparedStep i s (filepath_Join scriptsDir fileName), st') ∧
    ls_initContainers st' = ls_initContainers st ∧
    ls_podSteps st' = ls_podSteps st ∧
    ls_placeScripts st' = ls_placeScripts st || hasScript s.
Proof.
  unfold prepareStep, preparedStep, hasScript. cbn [on_Container s_Script s_Container].
  destruct (decide (s_Script s ≠ EmptyString)) as [Hs|Hs].
  - rewrite bool_decide_true by done.
    unfold materializeScript. cbn [on_Container s_Script s_Container with_VolumeMounts
      with_Env with_Args c_Args c_VolumeMounts].
    destruct (RestrictLengthWithRandomSuffix _ (ls_world st)) as [fileName w1].
    destruct (RestrictLengthWithRandomSuffix _ w1) as [heredoc w2].
    rewrite scriptArgs_cut by apply join_scriptsDir_not_flag.
    exists fileName. simpl.
    destruct (decide (c_WorkingDir (s_Container s) = EmptyString));
      (eexists; split; [reflexivity|]); simpl; by rewrite orb_true_r.
  - rewrite bool_decide_false by done.
    exists EmptyString, st. split; [|by rewrite orb_false_r].
    simpl. rewrite app_nil_r.
    by destruct (decide (c_WorkingDir (s_Container s) = EmptyString)).
Qed.

Lemma stepsLoop_spec M steps : ∀ i st,
  ∃ st' R P,
    stepsLoop M i steps st = Some st' ∧
    ls_initContainers st' = ls_initContainers st ++ R ∧
    Forall2 initContainerOf (filter goesToInit (indexedFrom i steps)) R ∧
    ls_podSteps st' = ls_podSteps st ++ P ∧
    Forall2 (λ p s', ∃ fileName,
               s' = zeroNonMaxResourceRequests
                      (preparedStep p.1 p.2 (filepath_Join scriptsDir fileName)) p.1 M)
            (filter (λ p, ¬ goesToInit p) (indexedFrom i steps)) P ∧
    ls_placeScripts st' = ls_placeScripts st || existsb hasScript steps.
Proof.
  induction steps as [|s rest IH]; intros i st.
  - exists st, [], []. simpl. rewrite !app_nil_r, orb_false_r.
    repeat split; constructor.
  - cbn [stepsLoop indexedFrom]. unfold stepBody.
    destruct (prepareStep_spec i s st) as (fileName & st1 & Hprep & Hi1 & Hp1 & Hs1).
    rewrite Hprep. cbn [mbind option_bind].
    set (s1 := preparedStep i s (filepath_Join scriptsDir fileName)) in *.
    destruct (IH (S i) (routeStep M i s1 st1)) as (st' & R & P & Hloop & HR & HFR & HP & HFP & HS).
    rewrite Hloop. unfold routeStep in HR, HP, HS.
    assert (Hname : c_Name (s_Container s1) = stepName i (c_Name (s_Container s))) by done.
    rewrite !filter_cons. unfold goesToInit at 1 3. cbn [fst snd].
    rewrite Hname in HR, HP, HS.
    destruct (decide (stepName i (c_Name (s_Container s)) = entrypointInitName)) as [Hinit|Hinit].
    + rewrite decide_False by (intros Hn; by apply Hn).
      simpl in HR, HP, HS.
      exists st', (s_Container s1 :: R), P. split; [done|].
      split; [by rewrite HR, Hi1, <- app_assoc|].
      split; [constructor; [by exists fileName | done]|].
      split; [by rewrite HP, Hp1|]. split; [done|].
      rewrite HS, Hs1. simpl. by rewrite orb_assoc.
    + rewrite decide_True by done.
      simpl in HR, HP, HS.
      exists st', R, (zeroNonMaxResourceRequests s1 i M :: P). split; [done|].
      split; [by rewrite HR, Hi1|]. split; [done|].
      split; [by rewrite HP, Hp1, <- app_assoc|].
      split; [constructor; [by exists fileName | done]|].
      rewrite HS, Hs1. simpl. by rewrite orb_assoc.
Qed.

(** The loop ends, and what it leaves. *)
Lemma compileSteps_spec taskSpec inits w :
  ∃ st R,
    compileSteps taskSpec inits w = Some st ∧
    ls_initContainers st = inits ++ R ∧
    Forall2 initContainerOf (initSteps (ts_Steps taskSpec)) R ∧
    Forall2 (podStepOf (ts_Steps taskSpec)) (keptSteps (ts_Steps taskSpec)) (ls_podSteps st) ∧
    ls_placeScripts st = existsb hasScript (ts_Steps taskSpec).
Proof.
  unfold compileSteps.
  destruct (stepsLoop_spec (findMaxResourceRequest (ts_Steps taskSpec) trackedResources)
              (ts_Steps taskSpec) 0
              {| ls_initContainers := inits; ls_podSteps := []; ls_placeScripts := false;
                 ls_scriptBody := EmptyString; ls_world := w |})
    as (st & R & P & Hloop & HR & HFR & HP & HFP & HS).
  simpl in HR, HP, HS. exists st, R. rewrite Hloop, HP. done.
Qed.

Lemma indexedFrom_lookup steps : ∀ i n p,
  indexedFrom i steps !! n = Some p → p.1 = (i + n)%nat ∧ steps !! n = Some p.2.
Proof.
  induction steps as [|s rest IH]; intros i n p; simpl; [done|].
  destruct n as [|n]; simpl.
  - intros [= <-]. simpl. split; [lia | done].
  - intros Hn. destruct (IH _ _ _ Hn) as [-> Hs]. split; [lia | done].
Qed.

Lemma indexedFrom_elem steps i p :
  p ∈ indexedFrom i steps → ∃ n, p.1 = (i + n)%nat ∧ steps !! n = Some p.2.
Proof.
  intros Hin. apply list_elem_of_lookup in Hin as [n Hn].
  exists n. by apply indexedFrom_lookup.
Qed.

Lemma indexedFrom_fst_lt steps : ∀ i m n p q,
  (m < n)%nat → indexedFrom i steps !! m = Some p → indexedFrom i steps !! n = Some q →
  (p.1 < q.1)%nat.
Proof.
  intros i m n p q Hlt Hp Hq.
  apply indexedFrom_lookup in Hp as [-> _]. apply indexedFrom_lookup in Hq as [-> _]. lia.
Qed.

End Loop.

(** ** C1: one step per resource keeps its request *)

Section Consolidation.
Context {collab : Collaborators}.

Lemma filter_indexedFrom_increasing (P : nat * Step → Prop) `{∀ p, Decision (P p)} steps :
  ∀ i n m p q, (n < m)%nat →
    filter P (indexedFrom i steps) !! n = Some p →
    filter P (indexedFrom i steps) !! m = Some q → (p.1 < q.1)%nat.
Proof.
  induction steps as [|s rest IH]; intros i n m p q Hlt; simpl; [done|].
  rewrite filter_cons. case_decide; [|by apply IH].
  destruct n as [|n], m as [|m]; simpl; try lia.
  - intros [= <-] Hq. apply list_elem_of_lookup_2 in Hq.
    apply list_elem_of_filter in Hq as [_ Hq].
    apply indexedFrom_elem in Hq as (k & -> & _). simpl. lia.
  - apply IH. lia.
Qed.

Lemma keptSteps_position steps n m p q :
  keptSteps steps !! n = Some p → keptSteps steps !! m = Some q → p.1 = q.1 → n = m.
Proof.
  intros Hp Hq Heq. unfold keptSteps in *.
  destruct (Nat.lt_trichotomy n m) as [Hlt|[->|Hgt]]; [|done|].
  - pose proof (filter_indexedFrom_increasing _ _ _ _ _ _ _ Hlt Hp Hq). lia.
  - pose proof (filter_indexedFrom_increasing _ _ _ _ _ _ _ Hgt Hq Hp). lia.
Qed.

Lemma keptSteps_source steps n p :
  keptSteps steps !! n = Some p → steps !! p.1 = Some p.2.
Proof.
  intros Hp. apply list_elem_of_lookup_2 in Hp.
  apply list_elem_of_filter in Hp as [_ Hp].
  by apply indexedFrom_elem in Hp as (k & -> & Hk).
Qed.

Lemma firstMaxStep_positive steps k i :
  firstMaxStep steps k i → ¬ noPositiveRequest steps k.
Proof.
  intros [(s & q & Hs & Hq & Hpos & _) _] Hnone. specialize (Hnone i s q Hs Hq). lia.
Qed.

(** The request step [i] is left with, for a tracked resource. *)
Lemma consolidatedRequest_cases steps k i s :
  k ∈ trackedResources →
  (firstMaxStep steps k i ∧
   consolidatedRequest steps i s k = requestOf (s_Container s) k)
  ∨ (¬ firstMaxStep steps k i ∧ consolidatedRequest steps i s k = Some zeroQty).
Proof.
  intros Hk. unfold consolidatedRequest. rewrite zeroNonMax_request.
  destruct (findMax_cases steps trackedResources k Hk) as [[Hidx Hnone]|(i0 & Hidx & Hmax)];
    rewrite Hidx.
  - right. rewrite decide_True by lia. split; [|done].
    intros Hfirst. by apply firstMaxStep_positive in Hfirst.
  - destruct (decide (i0 = i)) as [->|Hne].
    + left. by rewrite decide_False by lia.
    + right. rewrite decide_True by lia. split; [|done].
      intros Hfirst. apply Hne. by eapply firstMaxStep_unique.
Qed.

(** C1 (amended). For a tracked resource, a pod step left by the loop
    keeps the request of the step it comes from exactly when that step is
    the earliest one holding the maximum positive request (strictly more
    than every earlier step, at least as much as every step); every other
    pod step asks for the zero quantity, in a request map that exists. At
    most one pod step carries a non-zero request, and none does when no
    step asks for a positive quantity. *)
Theorem C1_consolidated_requests (taskSpec : TaskSpec) inits w st (k : ResourceName) :
  k ∈ trackedResources →
  compileSteps taskSpec inits w = Some st →
  let steps := ts_Steps taskSpec in
  List.length (ls_podSteps st) = List.length (keptSteps steps) ∧
  (∀ n p s', keptSteps steps !! n = Some p → ls_podSteps st !! n = Some s' →
     is_Some (c_Requests (s_Container s')) ∧
     ((firstMaxStep steps k p.1 ∧
       requestOf (s_Container s') k = requestOf (s_Container p.2) k)
      ∨ (¬ firstMaxStep steps k p.1 ∧ requestOf (s_Container s') k = Some zeroQty))) ∧
  (∀ n m s1 s2, ls_podSteps st !! n = Some s1 → ls_podSteps st !! m = Some s2 →
     requestOf (s_Container s1) k ≠ Some zeroQty →
     requestOf (s_Container s2) k ≠ Some zeroQty → n = m) ∧
  (noPositiveRequest steps k →
     ∀ s', s' ∈ ls_podSteps st → requestOf (s_Container s') k = Some zeroQty).
Proof.
  intros Hk Hcompile steps.
  destruct (compileSteps_spec taskSpec inits w) as (st0 & R & Hrun & _ & _ & Hpod & _).
  rewrite Hcompile in Hrun. injection Hrun as <-. fold steps in Hpod.
  assert (Hrel : ∀ n p s', keptSteps steps !! n = Some p → ls_podSteps st !! n = Some s' →
            is_Some (c_Requests (s_Container s')) ∧
            requestOf (s_Container s') k = consolidatedRequest steps p.1 p.2 k).
  { intros n p s' Hp Hs'.
    destruct (Forall2_lookup_lr _ _ _ _ _ _ Hpod Hp Hs') as (fileName & ->).
    split; [by eexists|]. unfold consolidatedRequest.
    rewrite !zeroNonMax_request. done. }
  assert (Hcases : ∀ n p s', keptSteps steps !! n = Some p → ls_podSteps st !! n = Some s' →
            (firstMaxStep steps k p.1 ∧
             requestOf (s_Container s') k = requestOf (s_Container p.2) k)
            ∨ (¬ firstMaxStep steps k p.1 ∧ requestOf (s_Container s') k = Some zeroQty)).
  { intros n p s' Hp Hs'. destruct (Hrel n p s' Hp Hs') as [_ ->].
    by apply consolidatedRequest_cases. }
  assert (Hlen : List.length (ls_podSteps st) = List.length (keptSteps steps)).
  { symmetry. by eapply Forall2_length. }
  split; [done|]. split; [|split].
  - intros n p s' Hp Hs'. split; [by apply (Hrel n p s')|by apply (Hcases n p s')].
  - intros n m s1 s2 H1 H2 Hn1 Hn2.
    destruct (Forall2_lookup_r _ _ _ _ _ Hpod H1) as (p & Hp & _).
    destruct (Forall2_lookup_r _ _ _ _ _ Hpod H2) as (q & Hq & _).
    destruct (Hcases n p s1 Hp H1) as [[Hf1 _]|[_ Hz]]; [|done].
    destruct (Hcases m q s2 Hq H2) as [[Hf2 _]|[_ Hz]]; [|done].
    apply (keptSteps_position steps n m p q Hp Hq).
    by eapply firstMaxStep_unique.
  - intros Hnone s' Hin. apply list_elem_of_lookup in Hin as [n Hs'].
    destruct (Forall2_lookup_r _ _ _ _ _ Hpod Hs') as (p & Hp & _).
    destruct (Hcases n p s' Hp Hs') as [[Hf _]|[_ Hz]]; [|done].
    by apply firstMaxStep_positive in Hf.
Qed.

End Consolidation.

(** C1, as the specification words it, fails: with CPU requests of 100m,
    500m and 200m the second step keeps its request, and the earliest
    step that asks for more than every earlier one is the first. *)
Lemma C1_counterexample :
  ¬ (∀ steps i s k,
       k ∈ trackedResources → steps !! i = Some s →
       consolidatedRequest steps i s k ≠ Some zeroQty → claimedRetainer steps k i).
Proof.
  intros Hclaim.
  destruct (Hclaim steps3 1%nat (cpuStep "build" (milli 500)) ResourceCPU) as [_ Hearliest].
  - apply list_elem_of_here.
  - reflexivity.
  - vm_compute. discriminate.
  - assert (Hfirst : recordStep steps3 ResourceCPU 0).
    { exists (cpuStep "fetch" (milli 100)), (milli 100).
      split; [reflexivity|]. split; [by vm_compute|]. split; [by vm_compute|].
      intros j s' q' Hj. lia. }
    specialize (Hearliest _ Hfirst). lia.
Qed.

Example consolidated_steps3 :
  map (λ p, consolidatedRequest steps3 p.1 p.2 ResourceCPU) (indexedFrom 0 steps3)
  = [Some zeroQty; Some (milli 500); Some zeroQty]
  ∧ map (λ p, consolidatedRequest steps3 p.1 p.2 ResourceMemory) (indexedFrom 0 steps3)
    = [Some zeroQty; Some zeroQty; Some zeroQty].
Proof. split; by vm_compute. Qed.

Lemma C1_witness :
  ResourceCPU ∈ trackedResources ∧
  ∃ st, compileSteps (collab := demo) (demoTask steps3 [] None) [] 0%nat = Some st ∧
        List.length (ls_podSteps st) = List.length (keptSteps (collab := demo) steps3) ∧
        ∀ n m s1 s2, ls_podSteps st !! n = Some s1 → ls_podSteps st !! m = Some s2 →
          requestOf (s_Container s1) ResourceCPU ≠ Some zeroQty →
          requestOf (s_Container s2) ResourceCPU ≠ Some zeroQty → n = m.
Proof.
  split; [apply list_elem_of_here|].
  destruct (compileSteps_spec (collab := demo) (demoTask steps3 [] None) [] 0%nat)
    as (st & _ & Hrun & _).
  exists st. split; [done|].
  pose proof (C1_consolidated_requests (collab := demo) (demoTask steps3 [] None) [] 0%nat st ResourceCPU
                (list_elem_of_here _ _) Hrun) as (Hlen & _ & Hone & _).
  split; [exact Hlen | exact Hone].
Defined.

(** ** The shape of what MakePod returns *)

Section Assembly.
Context {collab : Collaborators}.

Lemma MakePod_shape images taskRun taskSpec kubeclient w :
  ∃ creds secrets cerr psName w1 st R,
    CredsInit (CredsImage images) (GetServiceAccountName taskRun) (tr_Namespace taskRun)
              kubeclient implicitVolumeMounts implicitEnvVars = (creds, secrets, cerr) ∧
    RestrictLengthWithRandomSuffix "place-scripts" w = (psName, w1) ∧
    compileSteps taskSpec ((credsPart creds secrets).1 ++ workingDirPart images taskSpec) w1
      = Some st ∧
    ls_initContainers st = ((credsPart creds secrets).1 ++ workingDirPart images taskSpec) ++ R ∧
    Forall2 initContainerOf (initSteps (ts_Steps taskSpec)) R ∧
    Forall2 (podStepOf (ts_Steps taskSpec)) (keptSteps (ts_Steps taskSpec)) (ls_podSteps st) ∧
    ls_placeScripts st = existsb hasScript (ts_Steps taskSpec) ∧
    MakePod images taskRun taskSpec kubeclient w
    = match cerr with
      | Some err => Some (None, Some err, w)
      | None => Some (finishPod images taskRun taskSpec (credsPart creds secrets).2 psName st)
      end.
Proof.
  unfold MakePod.
  destruct (CredsInit _ _ _ _ _ _) as [[creds secrets] cerr].
  destruct (RestrictLengthWithRandomSuffix "place-scripts" w) as [psName w1].
  destruct (compileSteps_spec taskSpec
              ((credsPart creds secrets).1 ++ workingDirPart images taskSpec) w1)
    as (st & R & Hrun & HR & HFR & HFP & HS).
  exists creds, secrets, cerr, psName, w1, st, R.
  repeat (split; [done|]).
  destruct cerr as [err|]; [done|].
  destruct (credsPart creds secrets) as [inits vols]. simpl in *. by rewrite Hrun.
Qed.

Lemma finishPod_all_or_nothing images taskRun taskSpec vols psName st p e w' :
  finishPod images taskRun taskSpec vols psName st = (p, e, w') →
  (is_Some e → p = None) ∧ (e = None → is_Some p).
Proof.
  unfold finishPod.
  destruct (ValidateVolumes _) as [err|].
  { intros [= <- <- <-]. split; [done | discriminate]. }
  destruct (ReadAll_randReader 3 (ls_world st)) as [[b [err|]] w2].
  { intros [= <- <- <-]. split; [done | discriminate]. }
  destruct (MergeStepsWithStepTemplate _ _) as [merged [err|]].
  { intros [= <- <- <-]. split; [done | discriminate]. }
  intros [= <- <- <-]. split; [by intros [? ?] | by eexists].
Qed.

Lemma finishPod_success images taskRun taskSpec vols psName st p w' :
  finishPod images taskRun taskSpec vols psName st = (Some p, None, w') →
  p_InitContainers p = podInitContainers images psName st ∧
  p_Volumes p = podVolumes vols taskRun taskSpec (ls_placeScripts st) ∧
  ∃ merged, MergeStepsWithStepTemplate (ts_StepTemplate taskSpec) (ls_podSteps st)
            = (merged, None) ∧
            p_Containers p = podContainers merged (ts_Sidecars taskSpec).
Proof.
  unfold finishPod.
  destruct (ValidateVolumes _) as [err|]; [done|].
  destruct (ReadAll_randReader 3 (ls_world st)) as [[b [err|]] w2]; [done|].
  destruct (MergeStepsWithStepTemplate _ _) as [merged [err|]]; [done|].
  intros [= <- <-]. simpl. repeat split. by exists merged.
Qed.

Lemma credsPart_fst creds secrets : (credsPart creds secrets).1 = option_list creds.
Proof. by destruct creds. Qed.

Lemma workingDirPart_list images taskSpec :
  workingDirPart images taskSpec
  = option_list (WorkingDirInit (ShellImage images) (ts_Steps taskSpec) implicitVolumeMounts).
Proof. unfold workingDirPart. by destruct (WorkingDirInit _ _ _). Qed.

Lemma initSteps_names steps R :
  Forall2 initContainerOf (initSteps steps) R → Forall (λ c, c_Name c = entrypointInitName) R.
Proof.
  intros HF. apply Forall_lookup. intros n c Hc.
  destruct (Forall2_lookup_r _ _ _ _ _ HF Hc) as (p & Hp & fileName & ->).
  apply list_elem_of_lookup_2 in Hp. unfold initSteps in Hp.
  apply list_elem_of_filter in Hp as [Hinit _]. exact Hinit.
Qed.

End Assembly.

(** ** C3, C5, C9: init containers, script placement, errors *)

Section Unit.
Context {collab : Collaborators}.

Lemma MakePod_success images taskRun taskSpec kubeclient w p w' :
  MakePod images taskRun taskSpec kubeclient w = Some (Some p, None, w') →
  ∃ creds secrets R psName body,
    CredsInit (CredsImage images) (GetServiceAccountName taskRun) (tr_Namespace taskRun)
              kubeclient implicitVolumeMounts implicitEnvVars = (creds, secrets, None) ∧
    Forall2 initContainerOf (initSteps (ts_Steps taskSpec)) R ∧
    p_InitContainers p
    = option_list creds
      ++ option_list (WorkingDirInit (ShellImage images) (ts_Steps taskSpec) implicitVolumeMounts)
      ++ R
      ++ (if existsb hasScript (ts_Steps taskSpec)
          then [placeScriptsInitContainer images psName body] else []) ∧
    p_Volumes p = podVolumes (credsPart creds secrets).2 taskRun taskSpec
                    (existsb hasScript (ts_Steps taskSpec)).
Proof.
  intros Hmake.
  destruct (MakePod_shape images taskRun taskSpec kubeclient w)
    as (creds & secrets & cerr & psName & w1 & st & R & Hcreds & _ & _ & HR & HFR & _ & HS & Heq).
  rewrite Hmake in Heq. destruct cerr as [err|]; [done|].
  injection Heq as Heq. symmetry in Heq.
  apply finishPod_success in Heq as (Hinit & Hvol & _).
  exists creds, secrets, R, psName, (ls_scriptBody st).
  split; [done|]. split; [done|]. rewrite Hvol, HS. split; [|done].
  rewrite Hinit. unfold podInitContainers.
  rewrite HR, HS, credsPart_fst, workingDirPart_list.
  destruct (existsb hasScript (ts_Steps taskSpec)).
  - by rewrite <- !app_assoc.
  - by rewrite !app_nil_r, <- !app_assoc.
Qed.

(** C3 (amended). The init containers of the unit are, in this order: the
    credentials-init container if the collaborator returns one, the
    working-dir-init container if there is one, the steps whose name after
    renaming is the entrypoint carrier's, in the order of the task, and
    last the script-placement container, present exactly when a step has a
    script. *)
Theorem C3_init_container_order images taskRun taskSpec kubeclient w p w' :
  MakePod images taskRun taskSpec kubeclient w = Some (Some p, None, w') →
  ∃ creds secrets R psName body,
    CredsInit (CredsImage images) (GetServiceAccountName taskRun) (tr_Namespace taskRun)
              kubeclient implicitVolumeMounts implicitEnvVars = (creds, secrets, None) ∧
    Forall2 initContainerOf (initSteps (ts_Steps taskSpec)) R ∧
    Forall (λ c, c_Name c = entrypointInitName) R ∧
    p_InitContainers p
    = option_list creds
      ++ option_list (WorkingDirInit (ShellImage images) (ts_Steps taskSpec) implicitVolumeMounts)
      ++ R
      ++ (if existsb hasScript (ts_Steps taskSpec)
          then [placeScriptsInitContainer images psName body] else []).
Proof.
  intros Hmake.
  destruct (MakePod_success _ _ _ _ _ _ _ Hmake)
    as (creds & secrets & R & psName & body & Hcreds & HFR & Hinit & _).
  exists creds, secrets, R, psName, body.
  split; [done|]. split; [done|]. split; [by eapply initSteps_names | done].
Qed.

(** C5. When MakePod returns a unit, its init containers and volumes are
    those that do not depend on scripts, followed by the one
    script-placement container and the one script-placement volume exactly
    when some step has a script, and by nothing otherwise. *)
Theorem C5_script_placement images taskRun taskSpec kubeclient w p w' :
  MakePod images taskRun taskSpec kubeclient w = Some (Some p, None, w') →
  ∃ creds secrets R psName body,
    CredsInit (CredsImage images) (GetServiceAccountName taskRun) (tr_Namespace taskRun)
              kubeclient implicitVolumeMounts implicitEnvVars = (creds, secrets, None) ∧
    Forall2 initContainerOf (initSteps (ts_Steps taskSpec)) R ∧
    let others :=
      option_list creds
      ++ option_list (WorkingDirInit (ShellImage images) (ts_Steps taskSpec) implicitVolumeMounts)
      ++ R in
    let volumes :=
      (credsPart creds secrets).2 ++ ts_Volumes taskSpec
      ++ pt_Volumes (tr_PodTemplate taskRun) ++ implicitVolumes in
    if existsb hasScript (ts_Steps taskSpec)
    then p_InitContainers p = others ++ [placeScriptsInitContainer images psName body] ∧
         p_Volumes p = volumes ++ [scriptsVolume]
    else p_InitContainers p = others ∧ p_Volumes p = volumes.
Proof.
  intros Hmake.
  destruct (MakePod_success _ _ _ _ _ _ _ Hmake)
    as (creds & secrets & R & psName & body & Hcreds & HFR & Hinit & Hvol).
  exists creds, secrets, R, psName, body. split; [done|]. split; [done|]. simpl.
  rewrite Hinit, Hvol. unfold podVolumes.
  destruct (existsb hasScript (ts_Steps taskSpec)).
  - split; [by rewrite <- !app_assoc | by rewrite <- !app_assoc].
  - split; [by rewrite !app_nil_r | by rewrite <- !app_assoc].
Qed.

End Unit.

Section Errors.
Context {collab : Collaborators}.

(** C9. MakePod always returns; an error never comes with a unit, and no
    error comes without one; the error is that of the first collaborator
    to fail, in the order credentials-init, volume validation, random
    reader, step-template merge. *)
Theorem C9_all_or_nothing images taskRun taskSpec kubeclient w :
  (∃ p e w', MakePod images taskRun taskSpec kubeclient w = Some (p, e, w') ∧
             ((p = None ∧ is_Some e) ∨ (is_Some p ∧ e = None))) ∧
  ∃ creds secrets cerr st,
    CredsInit (CredsImage images) (GetServiceAccountName taskRun) (tr_Namespace taskRun)
              kubeclient implicitVolumeMounts implicitEnvVars = (creds, secrets, cerr) ∧
    match cerr with
    | Some err => MakePod images taskRun taskSpec kubeclient w = Some (None, Some err, w)
    | None =>
        let volumes := podVolumes (credsPart creds secrets).2 taskRun taskSpec
                         (existsb hasScript (ts_Steps taskSpec)) in
        match ValidateVolumes volumes with
        | Some err =>
            MakePod images taskRun taskSpec kubeclient w = Some (None, Some err, ls_world st)
        | None =>
            match ReadAll_randReader 3 (ls_world st) with
            | (_, Some err, w2) =>
                MakePod images taskRun taskSpec kubeclient w = Some (None, Some err, w2)
            | (_, None, w2) =>
                match MergeStepsWithStepTemplate (ts_StepTemplate taskSpec) (ls_podSteps st) with
                | (_, Some err) =>
                    MakePod images taskRun taskSpec kubeclient w = Some (None, Some err, w2)
                | (_, None) =>
                    ∃ p, MakePod images taskRun taskSpec kubeclient w = Some (Some p, None, w2)
                end
            end
        end
    end.
Proof.
  destruct (MakePod_shape images taskRun taskSpec kubeclient w)
    as (creds & secrets & cerr & psName & w1 & st & R & Hcreds & _ & _ & _ & _ & _ & HS & Heq).
  split.
  - destruct cerr as [err|].
    + exists None, (Some err), w. split; [done|]. left. by split; [|eexists].
    + destruct (finishPod images taskRun taskSpec (credsPart creds secrets).2 psName st)
        as [[p e] w'] eqn:Hfin.
      exists p, e, w'. split; [by rewrite Heq|].
      apply finishPod_all_or_nothing in Hfin as [Herr Hok].
      destruct e as [err|]; [left | right]; split; try done.
      * by apply Herr.
      * by apply Hok.
  - exists creds, secrets, cerr, st. split; [done|].
    destruct cerr as [err|]; [done|]. rewrite Heq. unfold finishPod. rewrite HS. simpl.
    destruct (ValidateVolumes _) as [err|]; [done|].
    destruct (ReadAll_randReader 3 (ls_world st)) as [[b [err|]] w2]; [done|].
    destruct (MergeStepsWithStepTemplate _ _) as [merged [err|]]; [done|].
    by eexists.
Qed.

End Errors.

(** The four failures, run on the concrete collaborators. *)
Example creds_error_aborts :
  MakePod (collab := demo) demoImages (demoTaskRun ∅) (demoTask steps3 [] None)
    (None, [], Some "secret not found") 0%nat
  = Some (None, Some "secret not found", 0%nat).
Proof. reflexivity. Qed.

Example duplicate_volume_aborts :
  (MakePod (collab := demo) demoImages (demoTaskRun ∅)
     (demoTask steps3 [ {| vol_Name := "home"; vol_Source := EmptyDir |} ] None)
     noCreds 0%nat ≫= λ r, Some r.1)
  = Some (None, Some "multiple volumes with same name").
Proof. by vm_compute. Qed.

Example random_source_failure_aborts :
  (MakePod (collab := demo) demoImages (demoTaskRun ∅) (demoTask steps3 [] None)
     noCreds 1000%nat ≫= λ r, Some r.1)
  = Some (None, Some "random source failed").
Proof. by vm_compute. Qed.

Example merge_failure_aborts :
  (MakePod (collab := demo) demoImages (demoTaskRun ∅)
     (demoTask steps3 [] (Some (plainContainer "template" "!"))) noCreds 0%nat ≫= λ r, Some r.1)
  = Some (None, Some "step template cannot be merged").
Proof. by vm_compute. Qed.

(** The task of the counterexample to the claimed init order: a step named
    as the entrypoint carrier, then a step with a script. *)
Lemma C3_counterexample :
  ∃ p w',
    MakePod (collab := demo) demoImages (demoTaskRun ∅)
      (demoTask [toolsStep; scriptStep "greet" "echo hi" []] [] None) demoCreds 0%nat
    = Some (Some p, None, w') ∧
    map c_Name (p_InitContainers p)
    = ["credential-initializer"; "working-dir-initializer"; "step-place-tools"; "place-scripts-0"] ∧
    map c_Name (p_InitContainers p)
    ≠ ["credential-initializer"; "working-dir-initializer"; "place-scripts-0"; "step-place-tools"].
Proof.
  eexists _, _. split; [by vm_compute|]. split; [by vm_compute|]. by vm_compute.
Qed.

Lemma C3_witness :
  ∃ p w',
    MakePod (collab := demo) demoImages (demoTaskRun ∅)
      (demoTask [toolsStep; scriptStep "greet" "echo hi" []] [] None) demoCreds 0%nat
    = Some (Some p, None, w') ∧
    ∃ R psName body,
      Forall (λ c, c_Name c = entrypointInitName (collab := demo)) R ∧
      p_InitContainers p
      = [plainContainer "credential-initializer" "creds-init"]
        ++ option_list (demoWorkingDirInit "busybox" [toolsStep; scriptStep "greet" "echo hi" []]
                          implicitVolumeMounts)
        ++ R ++ [placeScriptsInitContainer demoImages psName body].
Proof.
  destruct (MakePod (collab := demo) demoImages (demoTaskRun ∅)
              (demoTask [toolsStep; scriptStep "greet" "echo hi" []] [] None) demoCreds 0%nat)
    as [[[[p|] [e|]] w']|] eqn:Hmake; try (by vm_compute in Hmake).
  exists p, w'. split; [done|].
  destruct (C3_init_container_order (collab := demo) _ _ _ _ _ _ _ Hmake)
    as (creds & secrets & R & psName & body & Hcreds & _ & Hnames & Hinit).
  injection Hcreds as <- <-.
  exists R, psName, body. split; [exact Hnames | exact Hinit].
Defined.

Lemma C5_witness :
  ∃ p w',
    MakePod (collab := demo) demoImages (demoTaskRun ∅)
      (demoTask [toolsStep; scriptStep "greet" "echo hi" []] [] None) demoCreds 0%nat
    = Some (Some p, None, w') ∧
    ∃ vols, p_Volumes p = vols ++ [scriptsVolume] ∧ scriptsVolume ∉ vols.
Proof.
  destruct (MakePod (collab := demo) demoImages (demoTaskRun ∅)
              (demoTask [toolsStep; scriptStep "greet" "echo hi" []] [] None) demoCreds 0%nat)
    as [[[[p|] [e|]] w']|] eqn:Hmake; try (by vm_compute in Hmake).
  exists p, w'. split; [done|].
  destruct (C5_script_placement (collab := demo) _ _ _ _ _ _ _ Hmake)
    as (creds & secrets & R & psName & body & Hcreds & _ & Hplace).
  injection Hcreds as <- <-. simpl in Hplace. destruct Hplace as [_ Hvol].
  exists ([ {| vol_Name := "secret-volume"; vol_Source := SecretSource "git-ssh" |} ]
          ++ implicitVolumes).
  split; [exact Hvol|].
  intros Hin. simpl in Hin. by repeat (apply elem_of_cons in Hin as [Hin|Hin]; [done|]);
    apply elem_of_nil in Hin.
Defined.

(** ** C2, C6: the arguments and the mounts of a compiled step *)

Section Steps.
Context {collab : Collaborators}.

Lemma requestedVolumeMounts_lookup mounts : ∀ (acc : gmap string bool) key,
  default false
    (foldl (λ (acc : gmap string bool) vm, <[filepath_Clean (vm_MountPath vm) := true]> acc)
           acc mounts !! key)
  = bool_decide (key ∈ map (λ vm, filepath_Clean (vm_MountPath vm)) mounts)
    || default false (acc !! key).
Proof.
  induction mounts as [|vm mounts IH]; intros acc key; cbn [foldl List.map].
  - rewrite bool_decide_false; [done | apply not_elem_of_nil].
  - rewrite IH. destruct (decide (filepath_Clean (vm_MountPath vm) = key)) as [<-|Hne].
    + rewrite lookup_insert_eq. cbn [default]. rewrite orb_true_r.
      symmetry. rewrite bool_decide_true; [done | apply list_elem_of_here].
    + rewrite lookup_insert_ne by done. f_equal.
      apply bool_decide_ext. rewrite elem_of_cons. split; [by right | by intros [->|?]].
Qed.

Lemma noMountAt_requested mounts imp :
  default false (requestedVolumeMounts mounts !! filepath_Clean (vm_MountPath imp))
  = negb (bool_decide (noMountAt mounts imp)).
Proof.
  unfold requestedVolumeMounts. rewrite requestedVolumeMounts_lookup, lookup_empty.
  simpl. rewrite orb_false_r, <- bool_decide_not. apply bool_decide_ext.
  unfold noMountAt. rewrite list_elem_of_fmap. split.
  - intros (vm & Heq & Hin) Hall. rewrite Forall_forall in Hall. by apply (Hall vm Hin).
  - intros Hnot. apply not_Forall_Exists in Hnot; [|apply _].
    apply Exists_exists in Hnot as (vm & Hin & Hvm). exists vm. split; [|done].
    destruct (decide (filepath_Clean (vm_MountPath imp) = filepath_Clean (vm_MountPath vm)))
      as [Heq|Hne]; [done|].
    exfalso. apply Hvm. simpl. congruence.
Qed.

Lemma addImplicit_foldl (requested : VolumeMount → bool) (P : VolumeMount → Prop)
    `{∀ x, Decision (P x)} imps :
  (∀ imp, requested imp = negb (bool_decide (P imp))) →
  ∀ acc, foldl (λ acc imp, if requested imp then acc else acc ++ [imp]) acc imps
         = acc ++ filter P imps.
Proof.
  intros Hreq. induction imps as [|imp imps IH]; intros acc; simpl.
  - by rewrite app_nil_r.
  - rewrite IH, filter_cons, Hreq. case_decide.
    + rewrite bool_decide_true by done. simpl. by rewrite <- app_assoc.
    + by rewrite bool_decide_false by done.
Qed.

(** Lines 147-155 append exactly the implicit mounts whose cleaned path
    no declared mount has. *)
Lemma addImplicitVolumeMounts_spec mounts :
  addImplicitVolumeMounts mounts = mounts ++ filter (noMountAt mounts) implicitVolumeMounts.
Proof.
  unfold addImplicitVolumeMounts.
  apply (addImplicit_foldl
           (λ imp, default false
                     (requestedVolumeMounts mounts !! filepath_Clean (vm_MountPath imp)))
           (noMountAt mounts)).
  intros imp. apply noMountAt_requested.
Qed.

Lemma preparedStep_mounts i s tmpFile :
  c_VolumeMounts (s_Container (preparedStep i s tmpFile)) = specVolumeMounts s.
Proof.
  unfold preparedStep, specVolumeMounts. simpl.
  by rewrite addImplicitVolumeMounts_spec, <- app_assoc.
Qed.

Lemma preparedStep_args i s fileName :
  hasScript s = true →
  scriptArgsOf s (s_Container (preparedStep i s (filepath_Join scriptsDir fileName))).
Proof.
  intros Hs. exists fileName. unfold preparedStep. simpl. rewrite Hs.
  split; [apply scriptArgs_cut; apply join_scriptsDir_not_flag|].
  unfold cutScriptArgs. destruct (flagIndex (c_Args (s_Container s))) as [k|] eqn:Hk.
  - split; [apply last_snoc|]. apply flagIndex_Some in Hk as [Hflag Hbefore]. done.
  - split; [apply last_snoc|]. split; [by apply flagIndex_None | done].
Qed.

(** C2 (amended). For every step with a script the loop ends with the
    script path as the last argument. Without the flag among the
    arguments the path is appended to them; with it, the arguments up to
    and including the first flag are kept, the path follows the flag, and
    every argument that stood after the flag is dropped. *)
Theorem C2_script_arguments taskSpec inits w st :
  compileSteps taskSpec inits w = Some st →
  (∀ n q s', keptSteps (ts_Steps taskSpec) !! n = Some q → ls_podSteps st !! n = Some s' →
     hasScript q.2 = true → scriptArgsOf q.2 (s_Container s')) ∧
  ∃ R, ls_initContainers st = inits ++ R ∧
       ∀ n q c, initSteps (ts_Steps taskSpec) !! n = Some q → R !! n = Some c →
         hasScript q.2 = true → scriptArgsOf q.2 c.
Proof.
  intros Hcompile.
  destruct (compileSteps_spec taskSpec inits w) as (st0 & R & Hrun & HR & HFR & HFP & _).
  rewrite Hcompile in Hrun. injection Hrun as <-. split.
  - intros n q s' Hq Hs' Hscript.
    destruct (Forall2_lookup_lr _ _ _ _ _ _ HFP Hq Hs') as (fileName & ->).
    by apply (preparedStep_args q.1 q.2 fileName).
  - exists R. split; [done|]. intros n q c Hq Hc Hscript.
    destruct (Forall2_lookup_lr _ _ _ _ _ _ HFR Hq Hc) as (fileName & ->).
    by apply preparedStep_args.
Qed.

(** C6. Every compiled step keeps its declared mounts, unchanged and in
    front; an implicit mount follows them exactly when no declared mount
    has the same cleaned path. *)
Theorem C6_implicit_mounts taskSpec inits w st :
  compileSteps taskSpec inits w = Some st →
  (∀ n q s', keptSteps (ts_Steps taskSpec) !! n = Some q → ls_podSteps st !! n = Some s' →
     c_VolumeMounts (s_Container s')
     = c_VolumeMounts (s_Container q.2)
       ++ filter (noMountAt (c_VolumeMounts (s_Container q.2))) implicitVolumeMounts
       ++ (if hasScript q.2 then [scriptsVolumeMount] else [])) ∧
  ∃ R, ls_initContainers st = inits ++ R ∧
       ∀ n q c, initSteps (ts_Steps taskSpec) !! n = Some q → R !! n = Some c →
         c_VolumeMounts c = specVolumeMounts q.2.
Proof.
  intros Hcompile.
  destruct (compileSteps_spec taskSpec inits w) as (st0 & R & Hrun & HR & HFR & HFP & _).
  rewrite Hcompile in Hrun. injection Hrun as <-. split.
  - intros n q s' Hq Hs'.
    destruct (Forall2_lookup_lr _ _ _ _ _ _ HFP Hq Hs') as (fileName & ->).
    apply (preparedStep_mounts q.1 q.2).
  - exists R. split; [done|]. intros n q c Hq Hc.
    destruct (Forall2_lookup_lr _ _ _ _ _ _ HFR Hq Hc) as (fileName & ->).
    apply preparedStep_mounts.
Qed.

End Steps.

(** C2, as the specification words it, fails: the arguments after the
    flag are not kept. *)
Lemma C2_counterexample :
  let args := ["-entrypoint"; "cmd"; "--"; "x"] in
  let tmpFile := filepath_Join scriptsDir "script-0-abcde" in
  scriptArgs args tmpFile = Some ["-entrypoint"; tmpFile] ∧
  specScriptArgs args tmpFile = ["-entrypoint"; tmpFile; "--"; "x"] ∧
  scriptArgs args tmpFile ≠ Some (specScriptArgs args tmpFile).
Proof. split; [by vm_compute|]. split; by vm_compute. Qed.

Example script_step_in_pod :
  (compileSteps (collab := demo)
     (demoTask [scriptStep "greet" "echo hi" ["-entrypoint"; "cmd"; "--"; "x"]] [] None) [] 0%nat
   ≫= λ st, Some (map (λ s, c_Args (s_Container s)) (ls_podSteps st)))
  = Some [["-entrypoint"; "/builder/scripts/script-0-0"]].
Proof. by vm_compute. Qed.

Lemma C2_witness :
  ∃ st,
    compileSteps (collab := demo)
      (demoTask [scriptStep "greet" "echo hi" ["-entrypoint"; "cmd"; "--"; "x"]] [] None)
      [] 0%nat = Some st ∧
    ∀ n q s',
      keptSteps (collab := demo) [scriptStep "greet" "echo hi" ["-entrypoint"; "cmd"; "--"; "x"]]
        !! n = Some q →
      ls_podSteps st !! n = Some s' →
      hasScript q.2 = true → scriptArgsOf q.2 (s_Container s').
Proof.
  destruct (compileSteps_spec (collab := demo)
      (demoTask [scriptStep "greet" "echo hi" ["-entrypoint"; "cmd"; "--"; "x"]] [] None)
      [] 0%nat) as (st & _ & Hrun & _).
  exists st. split; [done|].
  exact (proj1 (C2_script_arguments (collab := demo) _ _ _ _ Hrun)).
Defined.

Example own_workspace_mount_kept :
  (compileSteps (collab := demo) (demoTask [ownWorkspaceStep] [] None) [] 0%nat
   ≫= λ st, Some (map (λ s, c_VolumeMounts (s_Container s)) (ls_podSteps st)))
  = Some [[ {| vm_Name := "source"; vm_MountPath := "/workspace/" |};
            {| vm_Name := "home"; vm_MountPath := homeDir |} ]].
Proof. by vm_compute. Qed.

Lemma C6_witness :
  ∃ st,
    compileSteps (collab := demo) (demoTask [ownWorkspaceStep] [] None) [] 0%nat = Some st ∧
    ∀ n q s',
      keptSteps (collab := demo) [ownWorkspaceStep] !! n = Some q →
      ls_podSteps st !! n = Some s' →
      c_VolumeMounts (s_Container s')
      = c_VolumeMounts (s_Container q.2)
        ++ filter (noMountAt (collab := demo) (c_VolumeMounts (s_Container q.2)))
             implicitVolumeMounts
        ++ (if hasScript q.2 then [scriptsVolumeMount] else []).
Proof.
  destruct (compileSteps_spec (collab := demo) (demoTask [ownWorkspaceStep] [] None) [] 0%nat)
    as (st & _ & Hrun & _).
  exists st. split; [done|].
  exact (proj1 (C6_implicit_mounts (collab := demo) _ _ _ _ Hrun)).
Defined.

(** ** C4: names *)

Section Names.

Lemma prefix_app p s : String.prefix p (p +:+ s) = true.
Proof.
  induction p as [|c p IH]; simpl; [by destruct s|].
  destruct (ascii_dec c c) as [_|Hne]; [exact IH | done].
Qed.

Lemma string_drop_app p s : string_drop (String.length p) (p +:+ s) = s.
Proof. induction p as [|c p IH]; simpl; [done | exact IH]. Qed.

Lemma TrimPrefix_app p s : TrimPrefix (p +:+ s) p = s.
Proof. unfold TrimPrefix, HasPrefix. by rewrite prefix_app, string_drop_app. Qed.

Lemma HasPrefix_app p s : HasPrefix (p +:+ s) p = true.
Proof. apply prefix_app. Qed.

Context {collab : Collaborators}.

(** C4 (amended). A step with a name, and any sidecar, whose prefixed name
    the length restriction returns as it is, gets a name that the trimming
    function takes back to the declared name and that the classifier
    recognises. A step without a name gets the placeholder
    [step-unnamed-<index>], which trims to [unnamed-<index>]. *)
Theorem C4_name_round_trip :
  (∀ i name,
     name ≠ EmptyString →
     RestrictLength (containerPrefix +:+ name) = containerPrefix +:+ name →
     TrimContainerNamePrefix (stepName i name) = name ∧
     IsContainerStep (stepName i name) = true) ∧
  (∀ name,
     RestrictLength (sidecarPrefix +:+ name) = sidecarPrefix +:+ name →
     TrimSidecarNamePrefix (sidecarName name) = name ∧
     IsContainerSidecar (sidecarName name) = true) ∧
  (∀ i,
     stepName i EmptyString = "step-unnamed-" +:+ pretty i ∧
     TrimContainerNamePrefix (stepName i EmptyString) = "unnamed-" +:+ pretty i ∧
     IsContainerStep (stepName i EmptyString) = true).
Proof.
  split; [|split].
  - intros i name Hname Hkeep. unfold stepName. rewrite decide_False by done.
    rewrite Hkeep. split; [apply TrimPrefix_app | apply HasPrefix_app].
  - intros name Hkeep. unfold sidecarName. rewrite Hkeep.
    split; [apply TrimPrefix_app | apply HasPrefix_app].
  - intros i. unfold stepName. rewrite decide_True by done.
    split; [done|].
    change (unnamedInitContainerPrefix +:+ pretty i)
      with (containerPrefix +:+ ("unnamed-" +:+ pretty i)).
    split; [apply TrimPrefix_app | apply HasPrefix_app].
Qed.

End Names.

(** C4, as the specification words it, fails for the step without a
    name, whatever the naming utility does. *)
Lemma C4_counterexample :
  ¬ (∀ (collab : Collaborators) (i : nat) (name : string),
       TrimContainerNamePrefix (stepName i name) = name).
Proof.
  intros Hclaim. specialize (Hclaim demo 0%nat EmptyString).
  vm_compute in Hclaim. discriminate.
Qed.

Example unnamed_step_name :
  stepName (collab := demo) 2 EmptyString = "step-unnamed-2"
  ∧ TrimContainerNamePrefix (stepName (collab := demo) 2 EmptyString) = "unnamed-2".
Proof. split; by vm_compute. Qed.

(** Under the length restriction modelled from the specification, a long
    name does not come back either. *)
Example long_step_name_is_cut :
  TrimContainerNamePrefix (stepName (collab := demo) 0 longName)
  = "a123456789b123456789c123456789d123456789e123456789f1234567".
Proof. by vm_compute. Qed.

Lemma C4_witness :
  TrimContainerNamePrefix (stepName (collab := demo) 0 "build") = "build" ∧
  IsContainerStep (stepName (collab := demo) 0 "build") = true.
Proof.
  apply (proj1 (C4_name_round_trip (collab := demo)) 0%nat "build").
  - discriminate.
  - reflexivity.
Defined.

(** ** C7: labels *)

Section Labels.
Context {collab : Collaborators}.

Lemma fold_insert_lookup (b m : gmap string string) (k : string) :
  map_fold (λ (k : string) (v : string) (acc : gmap string string), <[k := v]> acc) b m !! k
  = match m !! k with
    | Some v => Some v
    | None => b !! k
    end.
Proof.
  apply (map_fold_weak_ind (λ (acc m : gmap string string),
           acc !! k = match m !! k with Some v => Some v | None => b !! k end)).
  - by rewrite lookup_empty.
  - intros j v m' acc Hfresh IH. destruct (decide (j = k)) as [->|Hne].
    + by rewrite !lookup_insert_eq.
    + by rewrite !lookup_insert_ne.
Qed.

Lemma MakePod_labels images taskRun taskSpec kubeclient w p w' :
  MakePod images taskRun taskSpec kubeclient w = Some (Some p, None, w') →
  p_Labels p = Some (makeLabels taskRun).
Proof.
  intros Hmake.
  destruct (MakePod_shape images taskRun taskSpec kubeclient w)
    as (creds & secrets & cerr & psName & w1 & st & R & _ & _ & _ & _ & _ & _ & _ & Heq).
  rewrite Hmake in Heq. destruct cerr as [err|]; [done|].
  injection Heq as Heq. revert Heq. unfold finishPod.
  destruct (ValidateVolumes _) as [err|]; [done|].
  destruct (ReadAll_randReader 3 (ls_world st)) as [[b [err|]] w2]; [done|].
  destruct (MergeStepsWithStepTemplate _ _) as [merged [err|]]; [done|].
  by intros [= -> _].
Qed.

(** C7. The labels of the unit are those of makeLabels: the invocation
    identity label is the name of the invocation whatever the invocation's
    labels say; every other key has the invocation's own value when it has
    one, and the managed-by key has its default otherwise. *)
Theorem C7_labels (taskRun : TaskRun) :
  makeLabels taskRun !! taskRunLabelKey = Some (tr_Name taskRun) ∧
  (∀ k : string, k ≠ taskRunLabelKey →
     makeLabels taskRun !! k
     = match tr_Labels taskRun !! k with
       | Some v => Some v
       | None => if decide (k = ManagedByLabelKey) then Some ManagedByLabelValue else None
       end) ∧
  (∀ images taskSpec kubeclient w p w',
     MakePod images taskRun taskSpec kubeclient w = Some (Some p, None, w') →
     p_Labels p = Some (makeLabels taskRun)).
Proof.
  split; [|split].
  - unfold makeLabels. by rewrite lookup_insert_eq.
  - intros k Hk. unfold makeLabels. rewrite lookup_insert_ne by done.
    rewrite fold_insert_lookup. destruct (tr_Labels taskRun !! k); [done|].
    case_decide as Hm.
    + subst k. by rewrite lookup_insert_eq.
    + rewrite lookup_insert_ne by done. by rewrite lookup_empty.
  - intros images taskSpec kubeclient w p w'. apply MakePod_labels.
Qed.

End Labels.

Lemma C7_witness :
  makeLabels (collab := demo) (demoTaskRun customLabels) !! ManagedByLabelKey = Some "custom" ∧
  makeLabels (collab := demo) (demoTaskRun customLabels) !! taskRunLabelKey (collab := demo)
  = Some "build-run".
Proof.
  split.
  - rewrite (proj1 (proj2 (C7_labels (collab := demo) (demoTaskRun customLabels)))
               ManagedByLabelKey); [reflexivity | discriminate].
  - apply (proj1 (C7_labels (collab := demo) (demoTaskRun customLabels))).
Defined.

(** ** C8, C10: the readiness marker *)

Section Marker.
Context {W : Type}.
Implicit Types (update : UpdatePod W) (h : heap W).

Lemma markedReady_isReady p : isReady (markedReady p).
Proof.
  unfold isReady, readyAnnotationOf, markedReady. simpl. by rewrite lookup_insert_eq.
Qed.

Lemma isReady_annotations p : isReady p → is_Some (p_Annotations p).
Proof.
  unfold isReady, readyAnnotationOf. destruct (p_Annotations p); [by eexists|].
  simpl. rewrite lookup_empty. simpl. discriminate.
Qed.

(** On a unit that is marked nothing is called and nothing changes. *)
Lemma AddReadyAnnotation_ready update h :
  isReady (h_unit h) → AddReadyAnnotation update h = (h, None).
Proof.
  intros Hready. unfold AddReadyAnnotation.
  destruct (isReady_annotations _ Hready) as [m Hm]. rewrite Hm.
  rewrite decide_False by (intros Hn; by apply Hn).
  by destruct h.
Qed.

(** On a unit that is not marked the update function is called once, with
    the marked unit. *)
Lemma AddReadyAnnotation_not_ready update h :
  ¬ isReady (h_unit h) →
  AddReadyAnnotation update h
  = ({| h_unit := (update (markedReady (h_unit h)) (h_store h)).1.1;
        h_store := (update (markedReady (h_unit h)) (h_store h)).1.2;
        h_updates := h_updates h ++ [markedReady (h_unit h)] |},
     (update (markedReady (h_unit h)) (h_store h)).2).
Proof.
  intros Hnot. unfold AddReadyAnnotation, markedReady.
  destruct (p_Annotations (h_unit h)) as [m|] eqn:Hm.
  - rewrite decide_True by done. rewrite Hm. simpl.
    by destruct (update _ (h_store h)) as [[p' s'] e].
  - rewrite decide_True.
    + simpl. by destruct (update _ (h_store h)) as [[p' s'] e].
    + unfold readyAnnotationOf. simpl. rewrite lookup_empty. simpl. discriminate.
Qed.

(** C8. With an update function that leaves the canonical value on the
    unit it is handed: two calls of AddReadyAnnotation on a unit that is
    not marked make one call of the update function, the second call
    changing nothing and reporting no error; a call on a marked unit makes
    no call of the update function and reports no error. *)
Theorem C8_marking_idempotent update h :
  keepsReady update →
  (¬ isReady (h_unit h) →
     let first := AddReadyAnnotation update h in
     let second := AddReadyAnnotation update first.1 in
     List.length (h_updates first.1) = S (List.length (h_updates h)) ∧
     List.length (h_updates second.1) = S (List.length (h_updates h)) ∧
     second = (first.1, None)) ∧
  (isReady (h_unit h) →
     AddReadyAnnotation update h = (h, None) ∧
     h_updates (AddReadyAnnotation update h).1 = h_updates h).
Proof.
  intros Hkeep. split.
  - intros Hnot. cbv zeta.
    rewrite (AddReadyAnnotation_not_ready update h Hnot). cbn [fst snd].
    assert (Hafter : isReady (update (markedReady (h_unit h)) (h_store h)).1.1)
      by apply Hkeep, markedReady_isReady.
    rewrite AddReadyAnnotation_ready by exact Hafter.
    cbn [fst h_updates]. rewrite length_app. simpl.
    repeat split; lia.
  - intros Hready. rewrite AddReadyAnnotation_ready by done. done.
Qed.

(** C10. On a unit that is not marked, AddReadyAnnotation writes the
    canonical value into the annotations (an empty map standing in for a
    nil one) and hands that unit to the update function; its result is the
    update function's. With an update function that leaves the canonical
    value on the unit, the unit is marked afterwards, also when the update
    function fails, and a further call makes no call of the update
    function and reports no error. *)
Theorem C10_marked_before_update update h :
  keepsReady update →
  ¬ isReady (h_unit h) →
  let marked := markedReady (h_unit h) in
  let first := AddReadyAnnotation update h in
  p_Annotations marked
  = Some (<[ReadyAnnotation := readyAnnotationValue]> (default ∅ (p_Annotations (h_unit h)))) ∧
  isReady marked ∧
  h_updates first.1 = h_updates h ++ [marked] ∧
  first.2 = (update marked (h_store h)).2 ∧
  isReady (h_unit first.1) ∧
  (∀ err, first.2 = Some err →
     isReady (h_unit first.1) ∧
     AddReadyAnnotation update first.1 = (first.1, None) ∧
     h_updates (AddReadyAnnotation update first.1).1 = h_updates first.1).
Proof.
  intros Hkeep Hnot. cbv zeta.
  rewrite (AddReadyAnnotation_not_ready update h Hnot). cbn [fst snd h_updates h_unit].
  assert (Hafter : isReady (update (markedReady (h_unit h)) (h_store h)).1.1)
    by apply Hkeep, markedReady_isReady.
  split; [done|]. split; [apply markedReady_isReady|]. split; [done|]. split; [done|].
  split; [done|]. intros err _. split; [done|].
  rewrite AddReadyAnnotation_ready by exact Hafter. done.
Qed.

End Marker.

Lemma flakyUpdate_keepsReady : keepsReady flakyUpdate.
Proof. intros p n Hready. exact Hready. Qed.

Lemma emptyPod_not_ready : ¬ isReady emptyPod.
Proof. unfold isReady. vm_compute. discriminate. Qed.

Example first_update_fails :
  (AddReadyAnnotation flakyUpdate freshHeap).2 = Some "conflict"
  ∧ List.length (h_updates (AddReadyAnnotation flakyUpdate freshHeap).1) = 1%nat
  ∧ AddReadyAnnotation flakyUpdate (AddReadyAnnotation flakyUpdate freshHeap).1
    = ((AddReadyAnnotation flakyUpdate freshHeap).1, None).
Proof. split; [by vm_compute|]. split; by vm_compute. Qed.

Lemma C8_witness :
  List.length (h_updates (AddReadyAnnotation flakyUpdate freshHeap).1) = 1%nat ∧
  List.length
    (h_updates (AddReadyAnnotation flakyUpdate (AddReadyAnnotation flakyUpdate freshHeap).1).1)
  = 1%nat.
Proof.
  pose proof (proj1 (C8_marking_idempotent flakyUpdate freshHeap flakyUpdate_keepsReady)
                emptyPod_not_ready) as (Hfirst & Hsecond & _).
  split; [exact Hfirst | exact Hsecond].
Defined.

Lemma C10_witness :
  (AddReadyAnnotation flakyUpdate freshHeap).2 = Some "conflict" ∧
  isReady (h_unit (AddReadyAnnotation flakyUpdate freshHeap).1) ∧
  AddReadyAnnotation flakyUpdate (AddReadyAnnotation flakyUpdate freshHeap).1
  = ((AddReadyAnnotation flakyUpdate freshHeap).1, None).
Proof.
  pose proof (C10_marked_before_update flakyUpdate freshHeap flakyUpdate_keepsReady
                emptyPod_not_ready) as (_ & _ & _ & _ & _ & Herr).
  destruct (Herr "conflict" eq_refl) as (Hready & Hagain & _).
  split; [reflexivity|]. split; [exact Hready | exact Hagain].
Defined.

(** * Further properties of the compiler *)

(** ** The loop, step by step *)

Section TraceLemmas.

Lemma string_app_nil_r (s : string) : s +:+ EmptyString = s.
Proof.
  induction s as [|c s IH]; [done|].
  change (String c (s +:+ EmptyString) = String c s). by f_equal.
Qed.

Lemma string_app_assoc (a b c : string) : (a +:+ b) +:+ c = a +:+ (b +:+ c).
Proof.
  induction a as [|x a IH]; [done|].
  change (String x ((a +:+ b) +:+ c) = String x (a +:+ (b +:+ c))). by f_equal.
Qed.

Context {collab : Collaborators}.

Lemma prepareStep_trace i s st :
  ∃ fileName heredoc st',
    prepareStep i s st = Some (preparedStep i s (filepath_Join scriptsDir fileName), st') ∧
    ls_initContainers st' = ls_initContainers st ∧
    ls_podSteps st' = ls_podSteps st ∧
    ls_scriptBody st' = ls_scriptBody st +:+ stepFragment s fileName heredoc.
Proof.
  unfold prepareStep, preparedStep, stepFragment, hasScript.
  cbn [on_Container s_Script s_Container].
  destruct (decide (s_Script s ≠ EmptyString)) as [Hs|Hs].
  - rewrite bool_decide_true by done.
    unfold materializeScript. cbn [on_Container s_Script s_Container with_VolumeMounts
      with_Env with_Args c_Args c_VolumeMounts].
    destruct (RestrictLengthWithRandomSuffix _ (ls_world st)) as [fileName w1].
    destruct (RestrictLengthWithRandomSuffix _ w1) as [heredoc w2].
    rewrite scriptArgs_cut by apply join_scriptsDir_not_flag.
    exists fileName, heredoc. simpl.
    destruct (decide (c_WorkingDir (s_Container s) = EmptyString));
      (eexists; split; [reflexivity|]); simpl; done.
  - rewrite bool_decide_false by done.
    exists EmptyString, EmptyString, st. split; [|by rewrite string_app_nil_r].
    simpl. rewrite app_nil_r.
    by destruct (decide (c_WorkingDir (s_Container s) = EmptyString)).
Qed.

Lemma stepsLoop_trace M steps : ∀ i st,
  ∃ st' tr,
    stepsLoop M i steps st = Some st' ∧
    List.length tr = List.length steps ∧
    ls_initContainers st' = ls_initContainers st ++ traceInit i steps tr ∧
    ls_podSteps st' = ls_podSteps st ++ tracePod M i steps tr ∧
    ls_scriptBody st' = ls_scriptBody st +:+ traceBody steps tr.
Proof.
  induction steps as [|s rest IH]; intros i st.
  - exists st, []. cbn [stepsLoop traceInit tracePod traceBody List.length].
    by rewrite !app_nil_r, string_app_nil_r.
  - cbn [stepsLoop]. unfold stepBody.
    destruct (prepareStep_trace i s st) as (f & h & st1 & Hprep & Hi1 & Hp1 & Hb1).
    rewrite Hprep. cbn [mbind option_bind].
    set (s1 := preparedStep i s (filepath_Join scriptsDir f)) in *.
    destruct (IH (S i) (routeStep M i s1 st1)) as (st' & tr & Hloop & Hlen & HI & HP & HB).
    exists st', ((f, h) :: tr). rewrite Hloop. split; [done|].
    split; [simpl; by rewrite Hlen|].
    unfold routeStep in HI, HP, HB.
    assert (Hname : c_Name (s_Container s1) = stepName i (c_Name (s_Container s))) by done.
    rewrite Hname in HI, HP, HB. cbn [traceInit tracePod traceBody]. fold s1.
    destruct (decide (goesToInit (i, s))) as [Hg|Hg];
      unfold goesToInit in Hg; cbn [fst snd] in Hg.
    + rewrite decide_True in HI, HP, HB by exact Hg. simpl in HI, HP, HB.
      split; [by rewrite HI, Hi1, <- app_assoc|]. split; [by rewrite HP, Hp1|].
      by rewrite HB, Hb1, string_app_assoc.
    + rewrite decide_False in HI, HP, HB by exact Hg. simpl in HI, HP, HB.
      split; [by rewrite HI, Hi1|]. split; [by rewrite HP, Hp1, <- app_assoc|].
      by rewrite HB, Hb1, string_app_assoc.
Qed.

(** Every pod step with a script executes a file that the script of the
    place-scripts container writes. *)
Lemma tracePod_script M steps : ∀ i tr s',
  s' ∈ tracePod M i steps tr → hasScript s' = true →
  ∃ f h pre post,
    last (c_Args (s_Container s')) = Some (filepath_Join scriptsDir f) ∧
    traceBody steps tr
    = pre +:+ scriptFragment (filepath_Join scriptsDir f) h (s_Script s') +:+ post.
Proof.
  induction steps as [|s rest IH]; intros i tr s'; destruct tr as [|[f h] tr];
    cbn [tracePod traceBody]; try (intros Hin; by apply elem_of_nil in Hin).
  rewrite elem_of_app. intros [Hhere|Hlater] Hscript.
  - case_decide; [by apply elem_of_nil in Hhere|].
    apply list_elem_of_singleton in Hhere as ->.
    assert (Hs : hasScript s = true) by exact Hscript.
    exists f, h, EmptyString, (traceBody rest tr).
    split.
    + simpl. rewrite Hs. unfold cutScriptArgs.
      destruct (flagIndex (c_Args (s_Container s))); apply last_snoc.
    + simpl. unfold stepFragment. by rewrite Hs.
  - destruct (IH (S i) tr s' Hlater Hscript) as (f' & h' & pre & post & Hlast & Hbody).
    exists f', h', (stepFragment s f h +:+ pre), post. split; [done|].
    by rewrite Hbody, string_app_assoc.
Qed.

End TraceLemmas.

(** ** What the loop does to each step *)

Section StepFields.
Context {collab : Collaborators}.

Lemma filter_partition_length {A} (P : A → Prop) `{∀ x, Decision (P x)} (l : list A) :
  (List.length (filter P l) + List.length (filter (λ x, ¬ P x) l) = List.length l)%nat.
Proof.
  induction l as [|x l IH]; [done|]. rewrite !filter_cons.
  destruct (decide (P x)) as [HP|HP].
  - rewrite decide_False by (intros Hn; by apply Hn). simpl. lia.
  - rewrite decide_True by done. simpl. lia.
Qed.

Lemma indexedFrom_length steps : ∀ i, List.length (indexedFrom i steps) = List.length steps.
Proof. induction steps as [|s rest IH]; intros i; simpl; [done | by rewrite IH]. Qed.

Lemma keptSteps_not_init steps n q : keptSteps steps !! n = Some q → ¬ goesToInit q.
Proof.
  intros Hq. apply list_elem_of_lookup_2 in Hq.
  by apply list_elem_of_filter in Hq as [Hnot _].
Qed.

Lemma initSteps_source steps n q : initSteps steps !! n = Some q → steps !! q.1 = Some q.2.
Proof.
  intros Hq. apply list_elem_of_lookup_2 in Hq.
  apply list_elem_of_filter in Hq as [_ Hq].
  by apply indexedFrom_elem in Hq as (k & -> & Hk).
Qed.

(** X1. The environment, working directory and the fields the loop does not
    write: every compiled step has HOME in front of its declared
    environment, a working directory that is not empty (the declared one,
    or /workspace), and its image, command, limits, TTY flag and script as
    declared; without a script its arguments are as declared too. *)
Theorem step_environment_and_passthrough taskSpec inits w st :
  compileSteps taskSpec inits w = Some st →
  let compiled (s : Step) (c : Container) :=
    c_Env c = {| ev_Name := "HOME"; ev_Value := "/builder/home" |} :: c_Env (s_Container s) ∧
    c_WorkingDir c ≠ EmptyString ∧
    c_WorkingDir c = (if decide (c_WorkingDir (s_Container s) = EmptyString)
                      then "/workspace" else c_WorkingDir (s_Container s)) ∧
    c_Image c = c_Image (s_Container s) ∧
    c_Command c = c_Command (s_Container s) ∧
    c_Limits c = c_Limits (s_Container s) ∧
    c_TTY c = c_TTY (s_Container s) ∧
    (hasScript s = false → c_Args c = c_Args (s_Container s)) in
  (∀ n q s', keptSteps (ts_Steps taskSpec) !! n = Some q → ls_podSteps st !! n = Some s' →
     compiled q.2 (s_Container s') ∧ s_Script s' = s_Script q.2) ∧
  ∃ R, ls_initContainers st = inits ++ R ∧
       ∀ n q c, initSteps (ts_Steps taskSpec) !! n = Some q → R !! n = Some c → compiled q.2 c.
Proof.
  intros Hcompile compiled.
  assert (Hprep : ∀ i s tmp, compiled s (s_Container (preparedStep i s tmp))).
  { intros i s tmp. unfold compiled, preparedStep. simpl.
    split; [done|]. split; [by case_decide|]. split; [done|]. repeat (split; [done|]).
    by intros ->. }
  destruct (compileSteps_spec taskSpec inits w) as (st0 & R & Hrun & HR & HFR & HFP & _).
  rewrite Hcompile in Hrun. injection Hrun as <-. split.
  - intros n q s' Hq Hs'.
    destruct (Forall2_lookup_lr _ _ _ _ _ _ HFP Hq Hs') as (fileName & ->).
    split; [apply (Hprep q.1 q.2) | done].
  - exists R. split; [done|]. intros n q c Hq Hc.
    destruct (Forall2_lookup_lr _ _ _ _ _ _ HFR Hq Hc) as (fileName & ->). apply Hprep.
Qed.

(** X2. Every step goes to exactly one of the two lists, in the order of the
    task: the pod steps and the init containers of the loop together are
    as many as the steps, a pod step never has the entrypoint carrier's
    name and an init container of the loop always has it, and each pod
    step carries the name line 207 or 209 gives the step it comes from. *)
Theorem steps_are_routed_once taskSpec inits w st :
  compileSteps taskSpec inits w = Some st →
  ∃ R,
    ls_initContainers st = inits ++ R ∧
    (List.length (ls_podSteps st) + List.length R = List.length (ts_Steps taskSpec))%nat ∧
    Forall (λ s', c_Name (s_Container s') ≠ entrypointInitName) (ls_podSteps st) ∧
    Forall (λ c, c_Name c = entrypointInitName) R ∧
    (∀ n q s', keptSteps (ts_Steps taskSpec) !! n = Some q → ls_podSteps st !! n = Some s' →
       ts_Steps taskSpec !! q.1 = Some q.2 ∧
       c_Name (s_Container s') = stepName q.1 (c_Name (s_Container q.2))) ∧
    (∀ n m q r, (n < m)%nat → keptSteps (ts_Steps taskSpec) !! n = Some q →
       keptSteps (ts_Steps taskSpec) !! m = Some r → (q.1 < r.1)%nat).
Proof.
  intros Hcompile.
  destruct (compileSteps_spec taskSpec inits w) as (st0 & R & Hrun & HR & HFR & HFP & _).
  rewrite Hcompile in Hrun. injection Hrun as <-.
  exists R. split; [done|]. split.
  { rewrite <- (Forall2_length _ _ _ HFP), <- (Forall2_length _ _ _ HFR).
    unfold keptSteps, initSteps.
    pose proof (filter_partition_length goesToInit (indexedFrom 0 (ts_Steps taskSpec))) as Hlen.
    rewrite indexedFrom_length in Hlen. lia. }
  split.
  { apply Forall_lookup. intros n s' Hs'.
    destruct (Forall2_lookup_r _ _ _ _ _ HFP Hs') as (q & Hq & fileName & ->).
    apply keptSteps_not_init in Hq. exact Hq. }
  split; [by eapply initSteps_names|]. split.
  - intros n q s' Hq Hs'.
    destruct (Forall2_lookup_lr _ _ _ _ _ _ HFP Hq Hs') as (fileName & ->).
    split; [by eapply keptSteps_source | done].
  - intros n m q r Hlt Hq Hr. unfold keptSteps in *.
    by eapply filter_indexedFrom_increasing.
Qed.

Lemma scanSteps_untracked names k : ∀ steps i st,
  k ∉ names → view (scanSteps names i steps st) k = view st k.
Proof.
  induction steps as [|s rest IH]; intros i st Hk; simpl; [done|].
  rewrite IH by done. rewrite view_foldl_bumpMax. by rewrite decide_False.
Qed.

Lemma findMax_untracked steps names (k : string) :
  k ∉ names → findMaxResourceRequest steps names !! k = None.
Proof.
  intros Hk. unfold findMaxResourceRequest.
  pose proof (scanSteps_untracked names k steps 0
                (foldl initMax {| maxIdxs := ∅; maxReqs := ∅ |} names) Hk) as Hv.
  rewrite view_foldl_initMax, decide_False in Hv by done.
  unfold view in Hv. simpl in Hv. rewrite lookup_empty in Hv.
  by injection Hv.
Qed.

(** X3. findMaxResourceRequest has an entry exactly for the names it is given,
    and the entry is -1 or the index of a step. *)
Theorem findMax_domain_and_range steps names (k : string) :
  (k ∈ names →
     ∃ idx, findMaxResourceRequest steps names !! k = Some idx ∧
            -1 ≤ idx < Z.of_nat (List.length steps) ∧
            (steps = [] → idx = -1)) ∧
  (k ∉ names → findMaxResourceRequest steps names !! k = None).
Proof.
  split; [|apply findMax_untracked].
  intros Hk.
  destruct (findMax_cases steps names k Hk) as [[Hidx _]|(i & Hidx & Hrec & _)].
  - exists (-1). split; [done|]. split; [lia | done].
  - destruct Hrec as (s & q & Hs & _). apply lookup_lt_Some in Hs.
    exists (Z.of_nat i). split; [done|]. split; [lia|].
    intros ->. simpl in Hs. lia.
Qed.

(** X4. The consolidation writes nothing but the requests of the tracked
    resources: a pod step keeps its request for every other resource and
    its limits. *)
Theorem untracked_requests_are_kept taskSpec inits w st (k : string) :
  compileSteps taskSpec inits w = Some st →
  k ∉ trackedResources →
  ∀ n q s', keptSteps (ts_Steps taskSpec) !! n = Some q → ls_podSteps st !! n = Some s' →
    requestOf (s_Container s') k = requestOf (s_Container q.2) k ∧
    c_Limits (s_Container s') = c_Limits (s_Container q.2).
Proof.
  intros Hcompile Hk n q s' Hq Hs'.
  destruct (compileSteps_spec taskSpec inits w) as (st0 & R & Hrun & HR & HFR & HFP & _).
  rewrite Hcompile in Hrun. injection Hrun as <-.
  destruct (Forall2_lookup_lr _ _ _ _ _ _ HFP Hq Hs') as (fileName & ->).
  split; [|done]. rewrite zeroNonMax_request, findMax_untracked by done. done.
Qed.

(** X5. A step that goes to the init containers keeps its requests as
    declared, and still counts in findMaxResourceRequest: when it holds
    the maximum of a tracked resource, every pod step asks for zero. *)
Theorem init_step_keeps_requests taskSpec inits w st :
  compileSteps taskSpec inits w = Some st →
  ∃ R, ls_initContainers st = inits ++ R ∧
    (∀ n q c, initSteps (ts_Steps taskSpec) !! n = Some q → R !! n = Some c →
       c_Requests c = c_Requests (s_Container q.2)) ∧
    (∀ (k : string) n q, k ∈ trackedResources →
       initSteps (ts_Steps taskSpec) !! n = Some q →
       firstMaxStep (ts_Steps taskSpec) k q.1 →
       ∀ s', s' ∈ ls_podSteps st → requestOf (s_Container s') k = Some zeroQty).
Proof.
  intros Hcompile.
  destruct (compileSteps_spec taskSpec inits w) as (st0 & R & Hrun & HR & HFR & HFP & _).
  rewrite Hcompile in Hrun. injection Hrun as <-.
  exists R. split; [done|]. split.
  - intros n q c Hq Hc.
    by destruct (Forall2_lookup_lr _ _ _ _ _ _ HFR Hq Hc) as (fileName & ->).
  - intros k n q Hk Hq Hmax s' Hin.
    apply list_elem_of_lookup in Hin as [m Hs'].
    destruct (Forall2_lookup_r _ _ _ _ _ HFP Hs') as (r & Hr & fileName & ->).
    change (consolidatedRequest (ts_Steps taskSpec) r.1
              (preparedStep r.1 r.2 (filepath_Join scriptsDir fileName)) k = Some zeroQty).
    destruct (consolidatedRequest_cases (ts_Steps taskSpec) k r.1
                (preparedStep r.1 r.2 (filepath_Join scriptsDir fileName)) Hk)
      as [[Hfirst _]|[_ Hzero]]; [|done].
    exfalso. pose proof (firstMaxStep_unique _ _ _ _ Hmax Hfirst) as Heq.
    pose proof (keptSteps_not_init _ _ _ Hr) as Hnot.
    pose proof (keptSteps_source _ _ _ Hr) as Hrs.
    pose proof (initSteps_source _ _ _ Hq) as Hqs.
    apply list_elem_of_lookup_2 in Hq. unfold initSteps in Hq.
    apply list_elem_of_filter in Hq as [Hinit _].
    destruct q as [qi qs], r as [ri rs]. simpl in *. subst ri.
    rewrite Hqs in Hrs. injection Hrs as <-. by apply Hnot.
Qed.

End StepFields.

(** ** The unit MakePod returns *)

Section UnitFacts.
Context {collab : Collaborators}.

(** Everything MakePod went through when it returns a unit. *)
Lemma MakePod_success_full images taskRun taskSpec kubeclient w p w' :
  MakePod images taskRun taskSpec kubeclient w = Some (Some p, None, w') →
  ∃ creds secrets psName w1 st b merged,
    CredsInit (CredsImage images) (GetServiceAccountName taskRun) (tr_Namespace taskRun)
              kubeclient implicitVolumeMounts implicitEnvVars = (creds, secrets, None) ∧
    RestrictLengthWithRandomSuffix "place-scripts" w = (psName, w1) ∧
    compileSteps taskSpec ((credsPart creds secrets).1 ++ workingDirPart images taskSpec) w1
      = Some st ∧
    ValidateVolumes (podVolumes (credsPart creds secrets).2 taskRun taskSpec (ls_placeScripts st))
      = None ∧
    ReadAll_randReader 3 (ls_world st) = (b, None, w') ∧
    MergeStepsWithStepTemplate (ts_StepTemplate taskSpec) (ls_podSteps st) = (merged, None) ∧
    p = assemblePod taskRun (hex_EncodeToString b) (podInitContainers images psName st)
          (podContainers merged (ts_Sidecars taskSpec))
          (podVolumes (credsPart creds secrets).2 taskRun taskSpec (ls_placeScripts st)).
Proof.
  intros Hmake.
  destruct (MakePod_shape images taskRun taskSpec kubeclient w)
    as (creds & secrets & cerr & psName & w1 & st & R & Hcreds & Hname & Hrun & _ & _ & _ & _ & Heq).
  rewrite Hmake in Heq. destruct cerr as [err|]; [done|].
  injection Heq as Heq. revert Heq. unfold finishPod.
  destruct (ValidateVolumes _) as [err|] eqn:Hval; [done|].
  destruct (ReadAll_randReader 3 (ls_world st)) as [[b [err|]] w2] eqn:Hread; [done|].
  destruct (MergeStepsWithStepTemplate _ _) as [merged [err|]] eqn:Hmerge; [done|].
  intros [= -> ->]. by exists creds, secrets, psName, w1, st, b, merged.
Qed.

Lemma makeAnnotations_lookup taskRun (k : string) :
  makeAnnotations taskRun !! k
  = if decide (k = ReadyAnnotation) then Some EmptyString else tr_Annotations taskRun !! k.
Proof.
  unfold makeAnnotations. case_decide as Hk.
  - subst. by rewrite lookup_insert_eq.
  - rewrite lookup_insert_ne by done. rewrite fold_insert_lookup.
    destruct (tr_Annotations taskRun !! k); [done | by rewrite lookup_empty].
Qed.

(** X6. makeAnnotations copies the annotations of the invocation and sets the
    readiness annotation to the empty string, whatever the invocation has
    there; so a unit MakePod returns is never marked ready. *)
Theorem new_unit_annotations taskRun :
  makeAnnotations taskRun !! ReadyAnnotation = Some EmptyString ∧
  (∀ k : string, k ≠ ReadyAnnotation →
     makeAnnotations taskRun !! k = tr_Annotations taskRun !! k) ∧
  (∀ images taskSpec kubeclient w p w',
     MakePod images taskRun taskSpec kubeclient w = Some (Some p, None, w') →
     p_Annotations p = Some (makeAnnotations taskRun) ∧ ¬ isReady p).
Proof.
  split; [|split].
  - by rewrite makeAnnotations_lookup, decide_True.
  - intros k Hk. by rewrite makeAnnotations_lookup, decide_False.
  - intros images taskSpec kubeclient w p w' Hmake.
    apply MakePod_success_full in Hmake
      as (creds & secrets & psName & w1 & st & b & merged & _ & _ & _ & _ & _ & _ & ->).
    split; [done|]. unfold isReady, readyAnnotationOf. simpl.
    rewrite makeAnnotations_lookup, decide_True by done. simpl. discriminate.
Qed.

(** X7. MakePod, then AddReadyAnnotation: the first marking of a new unit
    calls the update function once, with the unit that has READY in place
    of the empty readiness annotation and the invocation's other
    annotations as copied; the error is the update function's. *)
Theorem new_unit_is_marked_by_one_update images taskRun taskSpec kubeclient w p w' :
  MakePod images taskRun taskSpec kubeclient w = Some (Some p, None, w') →
  ∀ (W : Type) (update : UpdatePod W) (store : W),
    let r := AddReadyAnnotation update {| h_unit := p; h_store := store; h_updates := [] |} in
    h_updates r.1 = [markedReady p] ∧
    r.2 = (update (markedReady p) store).2 ∧
    p_Annotations (markedReady p)
    = Some (<[ReadyAnnotation := readyAnnotationValue]> (makeAnnotations taskRun)) ∧
    ∀ k : string, k ≠ ReadyAnnotation →
      default ∅ (p_Annotations (markedReady p)) !! k = tr_Annotations taskRun !! k.
Proof.
  intros Hmake W update store.
  apply MakePod_success_full in Hmake
    as (creds & secrets & psName & w1 & st & b & merged & _ & _ & _ & _ & _ & _ & ->).
  set (p := assemblePod _ _ _ _ _).
  assert (Hnot : ¬ isReady p).
  { unfold isReady, readyAnnotationOf. simpl.
    rewrite makeAnnotations_lookup, decide_True by done. simpl. discriminate. }
  cbv zeta.
  rewrite (AddReadyAnnotation_not_ready update
             {| h_unit := p; h_store := store; h_updates := [] |} Hnot).
  cbn [fst snd h_updates h_unit h_store]. split; [done|]. split; [done|]. split; [done|].
  intros k Hk. unfold markedReady. simpl.
  rewrite lookup_insert_ne by done. by rewrite makeAnnotations_lookup, decide_False.
Qed.

(** X8. The volumes of a returned unit are the list the validator accepted:
    the secret volumes (only when there is a credentials-init container),
    the task's, the pod template's, the two implicit ones and, with a
    script, the place-scripts volume. *)
Theorem unit_volumes_are_validated images taskRun taskSpec kubeclient w p w' :
  MakePod images taskRun taskSpec kubeclient w = Some (Some p, None, w') →
  ValidateVolumes (p_Volumes p) = None ∧
  ∃ creds secrets,
    CredsInit (CredsImage images) (GetServiceAccountName taskRun) (tr_Namespace taskRun)
              kubeclient implicitVolumeMounts implicitEnvVars = (creds, secrets, None) ∧
    p_Volumes p
    = (if creds is Some _ then secrets else [])
      ++ ts_Volumes taskSpec ++ pt_Volumes (tr_PodTemplate taskRun)
      ++ [ {| vol_Name := "workspace"; vol_Source := EmptyDir |};
           {| vol_Name := "home"; vol_Source := EmptyDir |} ]
      ++ (if existsb hasScript (ts_Steps taskSpec)
          then [ {| vol_Name := "place-scripts"; vol_Source := EmptyDir |} ] else []).
Proof.
  intros Hmake.
  apply MakePod_success_full in Hmake
    as (creds & secrets & psName & w1 & st & b & merged & Hcreds & _ & Hrun & Hval & _ & _ & ->).
  split; [exact Hval|]. exists creds, secrets. split; [done|].
  destruct (compileSteps_spec taskSpec
              ((credsPart creds secrets).1 ++ workingDirPart images taskSpec) w1)
    as (st0 & R & Hrun0 & _ & _ & _ & HS).
  rewrite Hrun in Hrun0. injection Hrun0 as <-.
  simpl. unfold podVolumes. rewrite HS.
  destruct creds, (existsb hasScript (ts_Steps taskSpec)); simpl;
    by rewrite <- ?app_assoc, ?app_nil_r.
Qed.

(** X9. The containers of a returned unit: what the step-template merge made
    of the pod steps, then the sidecars in their order, each with only its
    name changed; a sidecar keeps its requests. *)
Theorem unit_containers images taskRun taskSpec kubeclient w p w' :
  MakePod images taskRun taskSpec kubeclient w = Some (Some p, None, w') →
  ∃ podSteps merged,
    Forall2 (podStepOf (ts_Steps taskSpec)) (keptSteps (ts_Steps taskSpec)) podSteps ∧
    MergeStepsWithStepTemplate (ts_StepTemplate taskSpec) podSteps = (merged, None) ∧
    List.length (p_Containers p)
    = (List.length merged + List.length (ts_Sidecars taskSpec))%nat ∧
    (∀ n s, merged !! n = Some s → p_Containers p !! n = Some (s_Container s)) ∧
    (∀ n sc, ts_Sidecars taskSpec !! n = Some sc →
       ∃ c, p_Containers p !! (List.length merged + n)%nat = Some c ∧
            c = with_Name (sidecarName (c_Name sc)) sc ∧
            c_Requests c = c_Requests sc ∧ c_Args c = c_Args sc ∧
            c_VolumeMounts c = c_VolumeMounts sc ∧ c_Env c = c_Env sc).
Proof.
  intros Hmake.
  apply MakePod_success_full in Hmake
    as (creds & secrets & psName & w1 & st & b & merged & _ & _ & Hrun & _ & _ & Hmerge & ->).
  destruct (compileSteps_spec taskSpec
              ((credsPart creds secrets).1 ++ workingDirPart images taskSpec) w1)
    as (st0 & R & Hrun0 & _ & _ & HFP & _).
  rewrite Hrun in Hrun0. injection Hrun0 as <-.
  exists (ls_podSteps st), merged. split; [done|]. split; [done|].
  simpl. unfold podContainers. split; [by rewrite length_app, !length_map|]. split.
  - intros n s Hs. rewrite lookup_app_l by (rewrite length_map; by eapply lookup_lt_Some).
    by rewrite list_lookup_fmap, Hs.
  - intros n sc Hsc. eexists. split; [|done].
    rewrite lookup_app_r by (rewrite length_map; lia).
    rewrite length_map. replace (List.length merged + n - List.length merged)%nat with n by lia.
    by rewrite list_lookup_fmap, Hsc.
Qed.

(** X10. Each pod step with a script is handed the path of a file that the
    place-scripts container writes: the script of that container holds the
    fragment that creates this very path and copies the step's script text
    into it between two lines of one delimiter; and that container, with
    the first generated name, the shell image, [sh -c] and the scripts
    mount, is the last init container. *)
Theorem script_files_are_placed images taskRun taskSpec kubeclient w p w' :
  MakePod images taskRun taskSpec kubeclient w = Some (Some p, None, w') →
  ∃ inits w1 st body,
    compileSteps taskSpec inits w1 = Some st ∧
    body = ls_scriptBody st ∧
    (existsb hasScript (ts_Steps taskSpec) = true →
       last (p_InitContainers p)
       = Some {| c_Name := (RestrictLengthWithRandomSuffix "place-scripts" w).1;
                 c_Image := ShellImage images; c_Command := ["sh"]; c_Args := ["-c"; body];
                 c_WorkingDir := EmptyString; c_Env := [];
                 c_VolumeMounts := [ {| vm_Name := "place-scripts";
                                        vm_MountPath := "/builder/scripts" |} ];
                 c_Requests := None; c_Limits := None; c_TTY := true |}) ∧
    (∀ s', s' ∈ ls_podSteps st → hasScript s' = true →
       ∃ fileName heredoc pre post,
         last (c_Args (s_Container s')) = Some (filepath_Join scriptsDir fileName) ∧
         last (c_VolumeMounts (s_Container s'))
         = Some {| vm_Name := "place-scripts"; vm_MountPath := "/builder/scripts" |} ∧
         body = pre +:+ scriptFragment (filepath_Join scriptsDir fileName) heredoc (s_Script s')
                    +:+ post).
Proof.
  intros Hmake.
  apply MakePod_success_full in Hmake
    as (creds & secrets & psName & w1 & st & b & merged & _ & Hname & Hrun & _ & _ & _ & ->).
  exists ((credsPart creds secrets).1 ++ workingDirPart images taskSpec), w1, st,
    (ls_scriptBody st).
  split; [done|]. split; [done|].
  destruct (compileSteps_spec taskSpec
              ((credsPart creds secrets).1 ++ workingDirPart images taskSpec) w1)
    as (st0 & R & Hrun0 & _ & _ & HFP & HS).
  rewrite Hrun in Hrun0. injection Hrun0 as <-. split.
  - intros Hany. simpl. unfold podInitContainers. rewrite HS, Hany, Hname. simpl.
    by rewrite last_snoc.
  - intros s' Hin Hscript.
    unfold compileSteps in Hrun.
    destruct (stepsLoop_trace (findMaxResourceRequest (ts_Steps taskSpec) trackedResources)
                (ts_Steps taskSpec) 0
                {| ls_initContainers := (credsPart creds secrets).1 ++ workingDirPart images taskSpec;
                   ls_podSteps := []; ls_placeScripts := false;
                   ls_scriptBody := EmptyString; ls_world := w1 |})
      as (st1 & tr & Hloop & _ & _ & HP & HB).
    rewrite Hrun in Hloop. injection Hloop as <-. simpl in HP, HB.
    rewrite HP in Hin.
    destruct (tracePod_script _ _ _ _ _ Hin Hscript) as (f & h & pre & post & Hlast & Hbody).
    exists f, h, pre, post. split; [done|]. split.
    + apply list_elem_of_lookup in Hin as [n Hn]. rewrite <- HP in Hn.
      destruct (Forall2_lookup_r _ _ _ _ _ HFP Hn) as (q & _ & fileName & ->).
      simpl. assert (Hq : hasScript q.2 = true) by exact Hscript.
      rewrite Hq. by rewrite last_snoc.
    + by rewrite HB, <- Hbody.
Qed.

Lemma hex_length b : String.length (hex_EncodeToString b) = (2 * List.length b)%nat.
Proof. induction b as [|x b IH]; simpl; [done | lia]. Qed.

(** X11. The rest of a returned unit: restart policy Never, the invocation's
    namespace, one owner reference that makes the invocation the
    controller, the pod template's scheduling fields passed through, and a
    name made of the invocation's name, [-pod-] and two hex digits for each
    byte the random reader gave. *)
Theorem unit_metadata images taskRun taskSpec kubeclient w p w' :
  MakePod images taskRun taskSpec kubeclient w = Some (Some p, None, w') →
  p_RestartPolicy p = RestartPolicyNever ∧
  p_Namespace p = tr_Namespace taskRun ∧
  p_ServiceAccountName p = GetServiceAccountName taskRun ∧
  p_OwnerReferences p
  = [ {| or_APIVersion := SchemeGroupVersion; or_Kind := "TaskRun";
         or_Name := tr_Name taskRun; or_UID := tr_UID taskRun;
         or_Controller := true; or_BlockOwnerDeletion := true |} ] ∧
  p_NodeSelector p = pt_NodeSelector (tr_PodTemplate taskRun) ∧
  p_Tolerations p = pt_Tolerations (tr_PodTemplate taskRun) ∧
  p_Affinity p = pt_Affinity (tr_PodTemplate taskRun) ∧
  p_SecurityContext p = pt_SecurityContext (tr_PodTemplate taskRun) ∧
  p_RuntimeClassName p = pt_RuntimeClassName (tr_PodTemplate taskRun) ∧
  ∃ b w0,
    ReadAll_randReader 3 w0 = (b, None, w') ∧
    p_Name p = tr_Name taskRun +:+ "-pod-" +:+ hex_EncodeToString b ∧
    String.length (hex_EncodeToString b) = (2 * List.length b)%nat.
Proof.
  intros Hmake.
  apply MakePod_success_full in Hmake
    as (creds & secrets & psName & w1 & st & b & merged & _ & _ & _ & _ & Hread & _ & ->).
  repeat (split; [done|]). exists b, (ls_world st). split; [done|]. split; [done|].
  apply hex_length.
Qed.

End UnitFacts.

(** ** Names, read back *)

Section NameFacts.

Lemma prefix_drop p : ∀ s, String.prefix p s = true → p +:+ string_drop (String.length p) s = s.
Proof.
  induction p as [|c p IH]; intros s; [done|].
  destruct s as [|d s]; [done|]. simpl.
  destruct (ascii_dec c d) as [->|Hne]; [|done].
  intros Hp. change (String d (p +:+ string_drop (String.length p) s) = String d s).
  f_equal. by apply IH.
Qed.

(** X12. The trimming functions and the classifiers agree: a name the
    classifier accepts is the prefix followed by what trimming returns, a
    name it rejects is returned as it is, and no name is both a step's and
    a sidecar's. *)
Theorem trim_is_inverse_of_prefix (name : string) :
  (IsContainerStep name = true → containerPrefix +:+ TrimContainerNamePrefix name = name) ∧
  (IsContainerStep name = false → TrimContainerNamePrefix name = name) ∧
  (IsContainerSidecar name = true → sidecarPrefix +:+ TrimSidecarNamePrefix name = name) ∧
  (IsContainerSidecar name = false → TrimSidecarNamePrefix name = name) ∧
  (IsContainerStep name = true → IsContainerSidecar name = false).
Proof.
  unfold IsContainerStep, IsContainerSidecar, TrimContainerNamePrefix, TrimSidecarNamePrefix,
    TrimPrefix, HasPrefix.
  split; [|split; [|split; [|split]]].
  - intros Hp. rewrite Hp. by apply prefix_drop.
  - by intros ->.
  - intros Hp. rewrite Hp. by apply prefix_drop.
  - by intros ->.
  - intros Hp. apply prefix_drop in Hp. rewrite <- Hp. reflexivity.
Qed.

Context {collab : Collaborators}.

(** X13. Steps without a name get different names at different positions; but
    a step declared as [unnamed-<i>] gets the name of the unnamed step at
    position [i] when the length restriction leaves it as it is. *)
Theorem unnamed_step_names :
  (∀ i j : nat, stepName i EmptyString = stepName j EmptyString → i = j) ∧
  (∀ i j : nat,
     RestrictLength (containerPrefix +:+ "unnamed-" +:+ pretty i)
     = containerPrefix +:+ "unnamed-" +:+ pretty i →
     stepName j ("unnamed-" +:+ pretty i) = stepName i EmptyString).
Proof.
  split.
  - intros i j. unfold stepName. rewrite !decide_True by done.
    intros Heq. apply (inj (String.append unnamedInitContainerPrefix)) in Heq.
    by apply (inj pretty) in Heq.
  - intros i j Hkeep. unfold stepName.
    rewrite (decide_False (P := "unnamed-" +:+ pretty i = EmptyString)) by discriminate.
    rewrite decide_True by done. rewrite Hkeep. reflexivity.
Qed.

End NameFacts.

(** ** The theorems above, on the concrete collaborators *)

Lemma demo_unit :
  ∃ p w',
    MakePod (collab := demo) demoImages (demoTaskRun customLabels)
      (demoTask [toolsStep; scriptStep "greet" "echo hi" []; gpuStep] [] None) demoCreds 0%nat
    = Some (Some p, None, w').
Proof.
  destruct (MakePod (collab := demo) demoImages (demoTaskRun customLabels)
              (demoTask [toolsStep; scriptStep "greet" "echo hi" []; gpuStep] [] None)
              demoCreds 0%nat)
    as [[[[p|] [e|]] w']|] eqn:Hmake; try (by vm_compute in Hmake).
  by exists p, w'.
Qed.

Lemma step_environment_witness :
  ∃ st,
    compileSteps (collab := demo) (demoTask [gpuStep] [] None) [] 0%nat = Some st ∧
    ∀ n q s', keptSteps (collab := demo) [gpuStep] !! n = Some q → ls_podSteps st !! n = Some s' →
      c_Env (s_Container s')
      = {| ev_Name := "HOME"; ev_Value := "/builder/home" |} :: c_Env (s_Container q.2).
Proof.
  destruct (compileSteps_spec (collab := demo) (demoTask [gpuStep] [] None) [] 0%nat)
    as (st & _ & Hrun & _).
  exists st. split; [done|]. intros n q s' Hq Hs'.
  exact (proj1 (proj1 (proj1 (step_environment_and_passthrough (collab := demo) _ _ _ _ Hrun)
                         n q s' Hq Hs'))).
Defined.

Lemma steps_are_routed_once_witness :
  ∃ st R,
    compileSteps (collab := demo) (demoTask [toolsStep; gpuStep] [] None) [] 0%nat = Some st ∧
    ls_initContainers st = [] ++ R ∧
    (List.length (ls_podSteps st) + List.length R = 2)%nat.
Proof.
  destruct (compileSteps_spec (collab := demo) (demoTask [toolsStep; gpuStep] [] None) [] 0%nat)
    as (st & _ & Hrun & _).
  destruct (steps_are_routed_once (collab := demo) _ _ _ _ Hrun) as (R & HR & Hlen & _).
  by exists st, R.
Defined.

Lemma findMax_domain_witness :
  ∃ idx, findMaxResourceRequest steps3 trackedResources !! ResourceCPU = Some idx ∧
         -1 ≤ idx < 3.
Proof.
  destruct (proj1 (findMax_domain_and_range steps3 trackedResources ResourceCPU)
              (list_elem_of_here _ _)) as (idx & Hidx & Hrange & _).
  by exists idx.
Defined.

Lemma untracked_requests_witness :
  ∃ st,
    compileSteps (collab := demo) (demoTask [gpuStep] [] None) [] 0%nat = Some st ∧
    ∀ n q s', keptSteps (collab := demo) [gpuStep] !! n = Some q → ls_podSteps st !! n = Some s' →
      requestOf (s_Container s') "nvidia.com/gpu" = requestOf (s_Container q.2) "nvidia.com/gpu".
Proof.
  destruct (compileSteps_spec (collab := demo) (demoTask [gpuStep] [] None) [] 0%nat)
    as (st & _ & Hrun & _).
  exists st. split; [done|]. intros n q s' Hq Hs'.
  refine (proj1 (untracked_requests_are_kept (collab := demo) _ _ _ _ "nvidia.com/gpu"
                   Hrun _ n q s' Hq Hs')).
  intros Hin. repeat (apply elem_of_cons in Hin as [Hin|Hin]; [discriminate|]).
  by apply elem_of_nil in Hin.
Defined.

Lemma init_step_keeps_requests_witness :
  ∃ st R,
    compileSteps (collab := demo) (demoTask [toolsStep; gpuStep] [] None) [] 0%nat = Some st ∧
    ls_initContainers st = [] ++ R ∧
    ∀ n q c, initSteps (collab := demo) [toolsStep; gpuStep] !! n = Some q → R !! n = Some c →
      c_Requests c = c_Requests (s_Container q.2).
Proof.
  destruct (compileSteps_spec (collab := demo) (demoTask [toolsStep; gpuStep] [] None) [] 0%nat)
    as (st & _ & Hrun & _).
  destruct (init_step_keeps_requests (collab := demo) _ _ _ _ Hrun) as (R & HR & Hreq & _).
  by exists st, R.
Defined.

Lemma new_unit_is_marked_witness :
  ∃ p w',
    MakePod (collab := demo) demoImages (demoTaskRun customLabels)
      (demoTask [toolsStep; scriptStep "greet" "echo hi" []; gpuStep] [] None) demoCreds 0%nat
    = Some (Some p, None, w') ∧
    h_updates (AddReadyAnnotation flakyUpdate
                 {| h_unit := p; h_store := 0%nat; h_updates := [] |}).1 = [markedReady p].
Proof.
  destruct demo_unit as (p & w' & Hmake). exists p, w'. split; [done|].
  exact (proj1 (new_unit_is_marked_by_one_update (collab := demo) _ _ _ _ _ _ _ Hmake
                  nat flakyUpdate 0%nat)).
Defined.

Lemma unit_volumes_witness :
  ∃ p w',
    MakePod (collab := demo) demoImages (demoTaskRun customLabels)
      (demoTask [toolsStep; scriptStep "greet" "echo hi" []; gpuStep] [] None) demoCreds 0%nat
    = Some (Some p, None, w') ∧
    demoValidateVolumes (p_Volumes p) = None.
Proof.
  destruct demo_unit as (p & w' & Hmake). exists p, w'. split; [done|].
  exact (proj1 (unit_volumes_are_validated (collab := demo) _ _ _ _ _ _ _ Hmake)).
Defined.

Lemma unit_containers_witness :
  ∃ p w',
    MakePod (collab := demo) demoImages (demoTaskRun customLabels)
      (demoTask [toolsStep; scriptStep "greet" "echo hi" []; gpuStep] [] None) demoCreds 0%nat
    = Some (Some p, None, w') ∧
    ∃ merged : list Step, List.length (p_Containers p) = (List.length merged + 1)%nat.
Proof.
  destruct demo_unit as (p & w' & Hmake). exists p, w'. split; [done|].
  destruct (unit_containers (collab := demo) _ _ _ _ _ _ _ Hmake)
    as (podSteps & merged & _ & _ & Hlen & _).
  by exists merged.
Defined.

Lemma script_files_witness :
  ∃ p w',
    MakePod (collab := demo) demoImages (demoTaskRun customLabels)
      (demoTask [toolsStep; scriptStep "greet" "echo hi" []; gpuStep] [] None) demoCreds 0%nat
    = Some (Some p, None, w') ∧
    ∃ body, last (p_InitContainers p)
            = Some (placeScriptsInitContainer demoImages "place-scripts-0" body).
Proof.
  destruct demo_unit as (p & w' & Hmake). exists p, w'. split; [done|].
  destruct (script_files_are_placed (collab := demo) _ _ _ _ _ _ _ Hmake)
    as (inits & w1 & st & body & _ & _ & Hlast & _).
  exists body. exact (Hlast eq_refl).
Defined.

Lemma unit_metadata_witness :
  ∃ p w',
    MakePod (collab := demo) demoImages (demoTaskRun customLabels)
      (demoTask [toolsStep; scriptStep "greet" "echo hi" []; gpuStep] [] None) demoCreds 0%nat
    = Some (Some p, None, w') ∧
    p_RestartPolicy p = RestartPolicyNever ∧ p_Namespace p = "ci".
Proof.
  destruct demo_unit as (p & w' & Hmake). exists p, w'. split; [done|].
  destruct (unit_metadata (collab := demo) _ _ _ _ _ _ _ Hmake) as (Hr & Hn & _).
  split; [exact Hr | exact Hn].
Defined.

Lemma trim_is_inverse_witness :
  containerPrefix +:+ TrimContainerNamePrefix "step-build" = "step-build" ∧
  TrimContainerNamePrefix "sidecar-proxy" = "sidecar-proxy".
Proof.
  split.
  - apply (proj1 (trim_is_inverse_of_prefix "step-build")). reflexivity.
  - apply (proj1 (proj2 (trim_is_inverse_of_prefix "sidecar-proxy"))). reflexivity.
Defined.

Lemma unnamed_step_names_witness :
  stepName (collab := demo) 5 "unnamed-0" = stepName (collab := demo) 0 EmptyString.
Proof.
  apply (proj2 (unnamed_step_names (collab := demo)) 0%nat 5%nat). reflexivity.
Defined.
